(** * Knowledge-graph backend: entity extraction and graph store

    A shallow embedding of
    [backend/utils/relationship_manager.py] (class [RelationshipManager])
    and of the graph store of
    [backend/services/knowledge_graph_service.py]
    (class [KnowledgeGraphService]), with the properties of the
    specification stated over that embedding.

    Conventions of the embedding.
    - A Python [str] is a [string]; the embedding is exact for ASCII text
      (code points below 128), which is the alphabet of every pattern and
      of every literal of the two modules.
    - A Python [float] is a binary64 [float] of [PrimFloat], so sums such
      as [0.5 + 0.1] round exactly as they do in CPython.
    - A Python [set] of strings is a [gset string]; a [dict] whose
      iteration order is observed is an association list in insertion
      order.
    - The service object is a record that is passed through every method;
      the JSON snapshot file is one of its fields. *)

From Stdlib Require Import Floats.PrimFloat.
From Stdlib Require Import ZArith QArith.
From Stdlib Require Import Strings.Ascii Strings.String.
From Stdlib Require Import Numbers.DecimalString.
From Stdlib Require Import Numbers.DecimalZ Numbers.DecimalPos.
From Stdlib Require Import Sorting.Sorted.
From stdpp Require Import gmap strings list.

Local Open Scope string_scope.
Local Open Scope list_scope.
Local Open Scope nat_scope.

(** ** Python string primitives (ASCII) *)

Module PyStr.

Definition code (c : ascii) : nat := nat_of_ascii c.

Definition in_range (lo hi c : ascii) : bool :=
  (code lo <=? code c) && (code c <=? code hi).

(** [c.isupper()], [c.islower()], [c.isalpha()], [c.isdigit()],
    [c.isspace()] on one character. *)
Definition isupper_c (c : ascii) : bool := in_range "A" "Z" c.
Definition islower_c (c : ascii) : bool := in_range "a" "z" c.
Definition isalpha_c (c : ascii) : bool := isupper_c c || islower_c c.
Definition isdigit_c (c : ascii) : bool := in_range "0" "9" c.
Definition isspace_c (c : ascii) : bool :=
  in_range "009" "013" c || in_range "028" "032" c.

(** The class [\w] of the [re] module. *)
Definition isword_c (c : ascii) : bool :=
  isalpha_c c || isdigit_c c || Ascii.eqb c "_".

Definition lower_c (c : ascii) : ascii :=
  if isupper_c c then ascii_of_nat (code c + 32) else c.
Definition upper_c (c : ascii) : ascii :=
  if islower_c c then ascii_of_nat (code c - 32) else c.

Fixpoint smap (f : ascii -> ascii) (s : string) : string :=
  match s with
  | EmptyString => EmptyString
  | String c s' => String (f c) (smap f s')
  end.

Fixpoint sany (p : ascii -> bool) (s : string) : bool :=
  match s with
  | EmptyString => false
  | String c s' => p c || sany p s'
  end.

Fixpoint sall (p : ascii -> bool) (s : string) : bool :=
  match s with
  | EmptyString => true
  | String c s' => p c && sall p s'
  end.

(** [s.lower()] *)
Definition lower (s : string) : string := smap lower_c s.

(** [any(c.isupper() for c in s)] *)
Definition any_upper (s : string) : bool := sany isupper_c s.

(** [s.isdigit()]: false on the empty string. *)
Definition isdigit (s : string) : bool :=
  negb (String.eqb s "") && sall isdigit_c s.

Fixpoint lstrip (s : string) : string :=
  match s with
  | String c s' => if isspace_c c then lstrip s' else s
  | EmptyString => EmptyString
  end.

Fixpoint rstrip (s : string) : string :=
  match s with
  | EmptyString => EmptyString
  | String c s' =>
      match rstrip s' with
      | EmptyString => if isspace_c c then EmptyString else String c EmptyString
      | t => String c t
      end
  end.

(** [s.strip()] *)
Definition strip (s : string) : string := rstrip (lstrip s).

(** [s.split()]: the maximal runs of non-whitespace characters.
    [cur] is the run being read, in reading order. *)
Fixpoint split_go (cur : string) (s : string) : list string :=
  match s with
  | EmptyString => if String.eqb cur "" then [] else [cur]
  | String c s' =>
      if isspace_c c
      then (if String.eqb cur "" then split_go "" s' else cur :: split_go "" s')
      else split_go (String.append cur (String c EmptyString)) s'
  end.

Definition split (s : string) : list string := split_go "" s.

(** [s.startswith(p)] *)
Fixpoint startswith (p s : string) : bool :=
  match p, s with
  | EmptyString, _ => true
  | String a p', String b s' => Ascii.eqb a b && startswith p' s'
  | String _ _, EmptyString => false
  end.

(** [sub in s] *)
Fixpoint contains (sub s : string) : bool :=
  startswith sub s ||
  match s with
  | EmptyString => false
  | String _ s' => contains sub s'
  end.

(** [s.find(sub)], as an integer; [-1] when [sub] does not occur. *)
Fixpoint find_from (sub s : string) (i : Z) : Z :=
  if startswith sub s then i
  else match s with
       | EmptyString => (-1)%Z
       | String _ s' => find_from sub s' (i + 1)%Z
       end.

Definition find (s sub : string) : Z := find_from sub s 0%Z.

(** [s.title()]: the first letter of every run of letters in upper case,
    the other letters in lower case. [inword] tells whether the previous
    character was a letter. *)
Fixpoint title_go (inword : bool) (s : string) : string :=
  match s with
  | EmptyString => EmptyString
  | String c s' =>
      String (if inword then lower_c c else upper_c c)
             (title_go (isalpha_c c) s')
  end.

Definition title (s : string) : string := title_go false s.

(** The first [n] characters of [s]. *)
Fixpoint take (n : nat) (s : string) : string :=
  match n, s with
  | S n', String c s' => String c (take n' s')
  | _, _ => EmptyString
  end.

(** [f"{n}"] for an integer. *)
Definition str_of_Z (n : Z) : string := NilZero.string_of_int (Z.to_int n).
Definition str_of_nat (n : nat) : string := str_of_Z (Z.of_nat n).

End PyStr.

(** ** The fragment of Python's [re] the two modules use

    A backtracking matcher with the priorities of CPython's engine:
    alternatives are tried left to right, quantifiers are greedy, and the
    first successful path wins. Only single-character items are repeated
    in the patterns of the module, so [Rep] repeats an [atom]. *)

Module Re.
Import PyStr.

Inductive cls : Type :=
| CChar (c : ascii)
| CRange (lo hi : ascii)
| CSpace
| CWord.

(** A one-character item: a literal, a class escape or a bracketed set,
    possibly negated. *)
Record atom : Type := { a_neg : bool; a_items : list cls }.

Inductive regex : Type :=
| Eps
| Atom (a : atom)
| Rep (a : atom) (lo : nat) (hi : option nat)
| Seq (r1 r2 : regex)
| Alt (r1 r2 : regex)
| Opt (r : regex)
| WordB
| Bol
| Eol
| Group (r : regex).

(** Under [re.IGNORECASE] a literal or a range accepts a character when
    the character, its lower-case form or its upper-case form is in it. *)
Definition cls_match (ic : bool) (x : ascii) (k : cls) : bool :=
  match k with
  | CChar c => Ascii.eqb x c || (ic && (Ascii.eqb (lower_c x) c || Ascii.eqb (upper_c x) c))
  | CRange lo hi =>
      in_range lo hi x || (ic && (in_range lo hi (lower_c x) || in_range lo hi (upper_c x)))
  | CSpace => isspace_c x
  | CWord => isword_c x
  end.

Definition atom_match (ic : bool) (a : atom) (x : ascii) : bool :=
  xorb (a_neg a) (existsb (cls_match ic x) (a_items a)).

Definition is_word_opt (o : option ascii) : bool :=
  match o with Some c => isword_c c | None => false end.

Definition next_char (s : string) : option ascii :=
  match s with String c _ => Some c | EmptyString => None end.

(** [\b]: exactly one of the two neighbours is a word character. *)
Definition word_boundary (prev : option ascii) (s : string) : bool :=
  xorb (is_word_opt prev) (is_word_opt (next_char s)).

(** [$] without [re.MULTILINE]: at the end, or before a final newline. *)
Definition at_end (s : string) : bool :=
  match s with
  | EmptyString => true
  | String c EmptyString => Ascii.eqb c "010"
  | _ => false
  end.

Definition hi_open (hi : option nat) : bool :=
  match hi with Some 0 => false | _ => true end.

Definition hi_pred (hi : option nat) : option nat :=
  match hi with Some n => Some (pred n) | None => None end.

Section Matcher.
Context {R : Type}.
Variable ic : bool.

(** A continuation receives the character before the current position,
    the rest of the subject and the groups closed so far. *)
Definition cont : Type := option ascii -> string -> list string -> option R.

Fixpoint rep_greedy (a : atom) (lo : nat) (hi : option nat)
    (prev : option ascii) (s : string) (caps : list string) (k : cont)
    {struct s} : option R :=
  match s with
  | String c s' =>
      if atom_match ic a c && hi_open hi then
        match rep_greedy a (pred lo) (hi_pred hi) (Some c) s' caps k with
        | Some r => Some r
        | None => match lo with 0 => k prev s caps | S _ => None end
        end
      else match lo with 0 => k prev s caps | S _ => None end
  | EmptyString => match lo with 0 => k prev s caps | S _ => None end
  end.

Fixpoint run (r : regex) (prev : option ascii) (s : string)
    (caps : list string) (k : cont) {struct r} : option R :=
  match r with
  | Eps => k prev s caps
  | Atom a =>
      match s with
      | String c s' => if atom_match ic a c then k (Some c) s' caps else None
      | EmptyString => None
      end
  | Rep a lo hi => rep_greedy a lo hi prev s caps k
  | Seq r1 r2 => run r1 prev s caps (fun p s' c => run r2 p s' c k)
  | Alt r1 r2 =>
      match run r1 prev s caps k with
      | Some x => Some x
      | None => run r2 prev s caps k
      end
  | Opt r1 =>
      match run r1 prev s caps k with
      | Some x => Some x
      | None => k prev s caps
      end
  | WordB => if word_boundary prev s then k prev s caps else None
  | Bol => match prev with None => k prev s caps | Some _ => None end
  | Eol => if at_end s then k prev s caps else None
  | Group r1 =>
      run r1 prev s caps
        (fun p s' c => k p s' (c ++ [take (String.length s - String.length s') s]))
  end.
End Matcher.

(** A match at the current position: its length and its groups. *)
Definition match_at (ic : bool) (r : regex) (prev : option ascii) (s : string)
  : option (nat * list string) :=
  run ic r prev s [] (fun _ s' caps => Some (String.length s - String.length s', caps)).

(** The match object: [m.start()], [m.group()] and [m.groups()]. *)
Record rmatch : Type := { m_start : nat; m_group : string; m_groups : list string }.

(** [re.finditer]: the leftmost match, then the search resumes where it
    ended. [skip] counts the characters still covered by the last match.
    (No pattern of the module matches the empty string; an empty match
    would be reported and the scan moved on by one character.) *)
Fixpoint finditer_go (ic : bool) (r : regex) (prev : option ascii) (s : string)
    (pos skip : nat) {struct s} : list rmatch :=
  match skip with
  | S k =>
      match s with
      | String c s' => finditer_go ic r (Some c) s' (S pos) k
      | EmptyString => []
      end
  | 0 =>
      match match_at ic r prev s with
      | Some (len, caps) =>
          {| m_start := pos; m_group := take len s; m_groups := caps |} ::
          match s with
          | String c s' => finditer_go ic r (Some c) s' (S pos) (pred len)
          | EmptyString => []
          end
      | None =>
          match s with
          | String c s' => finditer_go ic r (Some c) s' (S pos) 0
          | EmptyString => []
          end
      end
  end.

Definition finditer (ic : bool) (r : regex) (s : string) : list rmatch :=
  finditer_go ic r None s 0 0.

(** [re.match(r, s)] as a truth value. *)
Definition matches (ic : bool) (r : regex) (s : string) : bool :=
  match match_at ic r None s with Some _ => true | None => false end.

(** Pattern syntax. *)
Definition chr (c : ascii) : regex := Atom {| a_neg := false; a_items := [CChar c] |}.
Definition set (l : list cls) : regex := Atom {| a_neg := false; a_items := l |}.
Definition rep (l : list cls) (lo hi : nat) : regex :=
  Rep {| a_neg := false; a_items := l |} lo (Some hi).
Definition plus (l : list cls) : regex :=
  Rep {| a_neg := false; a_items := l |} 1 None.
Definition nstar (l : list cls) : regex :=
  Rep {| a_neg := true; a_items := l |} 0 None.

Fixpoint lit (s : string) : regex :=
  match s with
  | EmptyString => Eps
  | String c EmptyString => chr c
  | String c s' => Seq (chr c) (lit s')
  end.

Fixpoint seqs (l : list regex) : regex :=
  match l with
  | [] => Eps
  | [r] => r
  | r :: l' => Seq r (seqs l')
  end.

Fixpoint alts (r : regex) (l : list regex) : regex :=
  match l with
  | [] => r
  | r' :: l' => Alt r (alts r' l')
  end.

Definition words (w : string) (ws : list string) : regex :=
  alts (lit w) (List.map lit ws).

Definition AZ : cls := CRange "A" "Z".
Definition az : cls := CRange "a" "z".
Definition sp : regex := chr " ".

End Re.

(** ** [RelationshipManager]: pattern extraction *)

Module RelationshipManager.
Import PyStr Re.

Set Warnings "-inexact-float".

(** The dictionaries [extract_entities] and [extract_relationships]
    return, as records. Types are the string tags of the source. *)
Record entity : Type := {
  e_id : nat;
  e_name : string;
  e_type : string;
  e_position : nat;
  e_confidence : float
}.

Record relationship : Type := {
  r_source : string;
  r_target : string;
  r_type : string;
  r_weight : float;
  r_position : nat;
  r_confidence : float
}.

(** [self.entity_patterns], in the insertion order of the dictionary. *)
Definition entity_patterns : list (string * list regex) :=
  [ ("PERSON",
      [ (* \b[A-Z][a-z]{2,15} [A-Z][a-z]{2,15}\b *)
        seqs [WordB; set [AZ]; rep [az] 2 15; sp; set [AZ]; rep [az] 2 15; WordB];
        (* \b(?:Mr|Mrs|Ms|Dr|Prof)\.?\s+[A-Z][a-z]{2,15}(?:\s+[A-Z][a-z]{2,15})?\b *)
        seqs [WordB; words "Mr" ["Mrs"; "Ms"; "Dr"; "Prof"]; Opt (chr "."); plus [CSpace];
              set [AZ]; rep [az] 2 15;
              Opt (seqs [plus [CSpace]; set [AZ]; rep [az] 2 15]); WordB];
        (* \b[A-Z][a-z]{2,15} [A-Z]\. [A-Z][a-z]{2,15}\b *)
        seqs [WordB; set [AZ]; rep [az] 2 15; sp; set [AZ]; chr "."; sp;
              set [AZ]; rep [az] 2 15; WordB] ]);
    ("ORGANIZATION",
      [ (* \b[A-Z][a-zA-Z\s]{2,30}(?:\s+(?:Inc|Corp|LLC|Ltd|Company|Corporation))\b *)
        seqs [WordB; set [AZ]; rep [az; AZ; CSpace] 2 30;
              seqs [plus [CSpace];
                    words "Inc" ["Corp"; "LLC"; "Ltd"; "Company"; "Corporation"]];
              WordB];
        (* \b(?:Apple Inc|Google|Microsoft|Amazon|Facebook|Meta|Tesla|SpaceX|OpenAI)\b *)
        seqs [WordB;
              words "Apple Inc" ["Google"; "Microsoft"; "Amazon"; "Facebook"; "Meta";
                                 "Tesla"; "SpaceX"; "OpenAI"];
              WordB];
        (* \b[A-Z][a-zA-Z\s]{2,20}\s+(?:Technologies|Systems|Solutions|Services)\b *)
        seqs [WordB; set [AZ]; rep [az; AZ; CSpace] 2 20; plus [CSpace];
              words "Technologies" ["Systems"; "Solutions"; "Services"]; WordB] ]);
    ("LOCATION",
      [ (* \b[A-Z][a-z]{2,20},\s+[A-Z][a-z]{2,20}\b *)
        seqs [WordB; set [AZ]; rep [az] 2 20; chr ","; plus [CSpace];
              set [AZ]; rep [az] 2 20; WordB];
        (* \b(?:California|New York|Texas|Florida|Washington|Cupertino|Seattle|Austin)\b *)
        seqs [WordB;
              words "California" ["New York"; "Texas"; "Florida"; "Washington";
                                  "Cupertino"; "Seattle"; "Austin"];
              WordB];
        (* \b[A-Z][a-z]{2,20}\s+(?:City|County|State|Province)\b *)
        seqs [WordB; set [AZ]; rep [az] 2 20; plus [CSpace];
              words "City" ["County"; "State"; "Province"]; WordB] ]);
    ("TECHNOLOGY",
      [ (* \b(?:Artificial Intelligence|Machine Learning|Deep Learning|Neural Networks?|API|Database)\b *)
        seqs [WordB;
              alts (lit "Artificial Intelligence")
                   [lit "Machine Learning"; lit "Deep Learning";
                    Seq (lit "Neural Network") (Opt (chr "s"));
                    lit "API"; lit "Database"];
              WordB];
        (* \b(?:Python|JavaScript|React|FastAPI|Docker|Kubernetes|iOS|Android|Windows|macOS)\b *)
        seqs [WordB;
              words "Python" ["JavaScript"; "React"; "FastAPI"; "Docker"; "Kubernetes";
                              "iOS"; "Android"; "Windows"; "macOS"];
              WordB];
        (* \b[A-Z][a-zA-Z]{2,15}(?:\s+[A-Z][a-zA-Z]{2,15})?\s+(?:Platform|Framework|Library|SDK)\b *)
        seqs [WordB; set [AZ]; rep [az; AZ] 2 15;
              Opt (seqs [plus [CSpace]; set [AZ]; rep [az; AZ] 2 15]);
              plus [CSpace]; words "Platform" ["Framework"; "Library"; "SDK"]; WordB] ]) ].

(** The two capture groups the relationship patterns are built from:
    [([A-Z][a-z]+ [A-Z][a-z]+)] and [([A-Z][a-zA-Z\s]+)], and
    [([A-Z][a-z]+)]. *)
Definition g_first_last : regex :=
  Group (seqs [set [AZ]; plus [az]; sp; set [AZ]; plus [az]]).
Definition g_phrase : regex := Group (seqs [set [AZ]; plus [az; AZ; CSpace]]).
Definition g_word : regex := Group (seqs [set [AZ]; plus [az]]).

(** [self.relationship_patterns] *)
Definition relationship_patterns : list (regex * string) :=
  [ (seqs [g_first_last; lit " is "; Opt (lit "the "); lit "CEO of "; g_phrase], "CEO_OF");
    (seqs [g_first_last; lit " works at "; g_phrase], "WORKS_AT");
    (seqs [g_phrase; lit " is headquartered in "; g_word], "HEADQUARTERED_IN");
    (seqs [g_phrase; lit " develops "; g_phrase], "DEVELOPS");
    (seqs [g_first_last; lit " founded "; g_phrase], "FOUNDED");
    (seqs [g_first_last; lit " leads "; g_phrase], "LEADS");
    (seqs [g_first_last; lit " created "; g_phrase], "CREATED");
    (seqs [g_phrase; lit " owns "; g_phrase], "OWNS");
    (seqs [g_phrase; lit " uses "; g_phrase], "USES");
    (seqs [g_phrase; lit " is a product of "; g_phrase], "PRODUCT_OF") ].

(** The set [stop_words] of [extract_entities]. *)
Definition stop_words : gset string :=
  list_to_set
  [ "the"; "a"; "an"; "and"; "or"; "but"; "in"; "on"; "at"; "to"; "for"; "of"; "with"; "by";
    "from"; "up"; "about"; "into"; "through"; "during"; "before"; "after"; "above"; "below";
    "between"; "among"; "this"; "that"; "these"; "those"; "i"; "me"; "my"; "myself"; "we";
    "our"; "ours"; "ourselves"; "you"; "your"; "yours"; "yourself"; "yourselves"; "he"; "him";
    "his"; "himself"; "she"; "her"; "hers"; "herself"; "it"; "its"; "itself"; "they"; "them";
    "their"; "theirs"; "themselves"; "what"; "which"; "who"; "whom"; "whose"; "this"; "that";
    "these"; "those"; "am"; "is"; "are"; "was"; "were"; "be"; "been"; "being"; "have"; "has";
    "had"; "having"; "do"; "does"; "did"; "doing"; "will"; "would"; "could"; "should"; "may";
    "might"; "must"; "can"; "shall"; "stale"; "smell"; "old"; "beer"; "heat"; "bring"; "out";
    "cold"; "takes"; "lingers"; "odor"; "taste"; "tastes"; "with"; "favorite"; "pickle"; "salt";
    "the stale"; "the ceo"; "founded spacex"; "and tesla"; "leads meta"; "created amazon";
    "microsoft develops"; "windows and"; "apple inc" ].

(** [invalid_patterns], matched with [re.match] and no flag. *)
Definition invalid_patterns : list regex :=
  [ (* ^the\s+\w+$ *)
    seqs [Bol; lit "the"; plus [CSpace]; plus [CWord]; Eol];
    (* ^\w+\s+and$ *)
    seqs [Bol; plus [CWord]; plus [CSpace]; lit "and"; Eol];
    (* ^\w+\s+(develops|founded|created|leads)$ *)
    seqs [Bol; plus [CWord]; plus [CSpace];
          Group (words "develops" ["founded"; "created"; "leads"]); Eol];
    (* ^(ceo|cto|cfo)\s+of$ *)
    seqs [Bol; Group (words "ceo" ["cto"; "cfo"]); plus [CSpace]; lit "of"; Eol] ].

(** [^[^a-zA-Z]*$] *)
Definition no_letter_pattern : regex := seqs [Bol; nstar [az; AZ]; Eol].

Definition in_list (s : string) (l : list string) : bool := existsb (String.eqb s) l.

(** [any(word in text.lower() for word in ws)] *)
Definition any_word_in (ws : list string) (text : string) : bool :=
  existsb (fun w => contains w (lower text)) ws.

Definition _is_meaningful_entity (text entity_type : string) : bool :=
  if String.eqb entity_type "PERSON" then
    any_upper text && (length (split text) <=? 3)
  else if String.eqb entity_type "ORGANIZATION" then
    any_upper text &&
    ((length (split text) <=? 3) || any_word_in ["inc"; "corp"; "ltd"; "llc"; "company"] text)
  else if String.eqb entity_type "LOCATION" then
    any_upper text
  else if String.eqb entity_type "TECHNOLOGY" then
    (3 <=? String.length text) && negb (in_list (lower text) ["the"; "and"; "or"; "but"])
  else true.

(** The built-ins [max(a, b)] and [min(a, b)] on floats: the first
    argument is kept unless the second is strictly better. *)
Definition py_max (a b : float) : float := if (a <? b)%float then b else a.
Definition py_min (a b : float) : float := if (b <? a)%float then b else a.

Definition _calculate_confidence (text entity_type : string) : float :=
  let confidence := 0.5%float in
  let confidence :=
    if any_upper text then (confidence + 0.2)%float else confidence in
  let confidence :=
    if String.eqb entity_type "PERSON" && (length (split text) =? 2) then
      (confidence + 0.2)%float
    else if String.eqb entity_type "ORGANIZATION"
            && any_word_in ["inc"; "corp"; "ltd"; "company"] text then
      (confidence + 0.3)%float
    else if String.eqb entity_type "TECHNOLOGY" && (4 <=? String.length text) then
      (confidence + 0.1)%float
    else confidence in
  let confidence :=
    if String.length text <? 3 then (confidence - 0.2)%float
    else if 30 <? String.length text then (confidence - 0.1)%float
    else confidence in
  py_min 1.0%float (py_max 0.1%float confidence).

(** The filter of [extract_entities] on one matched text. *)
Definition keep_candidate (entity_text entity_type : string) : bool :=
  let entity_lower := lower entity_text in
  (2 <? String.length entity_text)
  && negb (bool_decide (entity_lower ∈ stop_words))
  && negb (isdigit entity_text)
  && (length (split entity_text) <=? 4)
  && negb (matches false no_letter_pattern entity_text)
  && negb (existsb (fun p => startswith p entity_text) ["http"; "www"; "ftp"])
  && negb (existsb (fun p => matches false p entity_lower) invalid_patterns)
  && _is_meaningful_entity entity_text entity_type.

(** The body of the innermost loop: [st] is [(entities, entity_id)]. *)
Definition add_match (entity_type : string) (st : list entity * nat) (m : rmatch)
  : list entity * nat :=
  let '(entities, entity_id) := st in
  let entity_text := strip (m_group m) in
  if keep_candidate entity_text entity_type then
    (entities ++ [{| e_id := entity_id;
                     e_name := entity_text;
                     e_type := entity_type;
                     e_position := m_start m;
                     e_confidence := _calculate_confidence entity_text entity_type |}],
     S entity_id)
  else st.

Definition add_pattern (text entity_type : string) (st : list entity * nat) (p : regex)
  : list entity * nat :=
  fold_left (add_match entity_type) (finditer true p text) st.

Definition add_type (text : string) (st : list entity * nat) (tp : string * list regex)
  : list entity * nat :=
  fold_left (add_pattern text (fst tp)) (snd tp) st.

(** The candidates collected by the three nested loops. *)
Definition candidates (text : string) : list entity :=
  fst (fold_left (add_type text) entity_patterns ([], 0)).

(** The last loop: [st] is [(unique_entities, seen_names)]. *)
Definition dedup_step (st : list entity * gset string) (e : entity)
  : list entity * gset string :=
  let '(unique_entities, seen_names) := st in
  if negb (bool_decide (lower (e_name e) ∈ seen_names))
     && (0.6 <=? e_confidence e)%float
  then (unique_entities ++ [e], seen_names ∪ {[ lower (e_name e) ]})
  else st.

Definition dedup_pass (entities : list entity) : list entity :=
  fst (fold_left dedup_step entities ([], ∅)).

Definition extract_entities (text : string) : list entity :=
  dedup_pass (candidates text).

(** [groups[i]] of a match with at least two groups. *)
Definition add_rel_match (rel_type : string) (acc : list relationship) (m : rmatch)
  : list relationship :=
  match m_groups m with
  | g0 :: g1 :: _ =>
      acc ++ [{| r_source := strip g0;
                 r_target := strip g1;
                 r_type := rel_type;
                 r_weight := 1.0%float;
                 r_position := m_start m;
                 r_confidence := 0.7%float |}]
  | _ => acc
  end.

Definition extract_relationships (text : string) : list relationship :=
  fold_left
    (fun acc pr => fold_left (add_rel_match (snd pr)) (finditer true (fst pr) text) acc)
    relationship_patterns [].

(** [extract_entities_and_relationships]: the entities and the
    relationships of the result (the graph store reads nothing else). *)
Definition extract_entities_and_relationships (text : string)
  : list entity * list relationship :=
  (extract_entities text, extract_relationships text).

(** [_merge_entity_lists] *)
Definition merge_nlp_step (st : list entity * gset string) (e : entity)
  : list entity * gset string :=
  let '(merged, seen_names) := st in
  let name_lower := lower (e_name e) in
  if negb (bool_decide (name_lower ∈ seen_names)) && (0.6 <=? e_confidence e)%float
  then (merged ++ [e], seen_names ∪ {[ name_lower ]})
  else st.

Definition merge_pattern_step (st : list entity * gset string) (e : entity)
  : list entity * gset string :=
  let '(merged, seen_names) := st in
  let name_lower := lower (e_name e) in
  if negb (bool_decide (name_lower ∈ seen_names)) && (0.6 <=? e_confidence e)%float
  then (merged ++ [{| e_id := length merged; e_name := e_name e; e_type := e_type e;
                      e_position := e_position e; e_confidence := e_confidence e |}],
        seen_names ∪ {[ name_lower ]})
  else st.

Definition _merge_entity_lists (nlp_entities pattern_entities : list entity) : list entity :=
  fst (fold_left merge_pattern_step pattern_entities
         (fold_left merge_nlp_step nlp_entities ([], ∅))).

(** [_merge_relationship_lists] *)
Definition merge_rel_step (st : list relationship * gset (string * string * string))
    (rel : relationship) : list relationship * gset (string * string * string) :=
  let '(merged, seen_rels) := st in
  let rel_key := (lower (r_source rel), lower (r_target rel), r_type rel) in
  if negb (bool_decide (rel_key ∈ seen_rels))
     && (0.5 <=? r_confidence rel)%float
     && negb (String.eqb (lower (r_source rel)) (lower (r_target rel)))
  then (merged ++ [rel], seen_rels ∪ {[ rel_key ]})
  else st.

Definition _merge_relationship_lists (nlp_rels pattern_rels : list relationship)
  : list relationship :=
  fst (fold_left merge_rel_step (nlp_rels ++ pattern_rels) ([], ∅)).

(** [enhance_with_nlp]. spaCy is an external library: [spacy] is [None]
    when the library or its English model is not installed, and otherwise
    gives the [entities] and [relationships] lists the method builds from
    the parsed document before it merges them with the pattern results. *)
Definition enhance_with_nlp
    (spacy : option (string -> list entity * list relationship)) (text : string)
  : list entity * list relationship :=
  match spacy with
  | None => extract_entities_and_relationships text
  | Some nlp =>
      let '(entities, relationships) := nlp text in
      let pattern_results := extract_entities_and_relationships text in
      (_merge_entity_lists entities (fst pattern_results),
       _merge_relationship_lists relationships (snd pattern_results))
  end.

End RelationshipManager.

(** ** [KnowledgeGraphService]: the graph store *)

Module KnowledgeGraphService.
Import PyStr RelationshipManager.

Set Warnings "-inexact-float".

(** Values of the open [properties] mapping. *)
Inductive pyval : Type :=
| VStr (s : string)
| VFloat (f : float)
| VInt (z : Z)
| VBool (b : bool).

Record node : Type := {
  node_id : string;
  node_label : string;
  node_type : string;
  node_properties : list (string * pyval)
}.

Record edge : Type := {
  edge_id : string;
  edge_source : string;
  edge_target : string;
  edge_type : string;
  edge_weight : float;
  edge_properties : list (string * pyval)
}.

(** The content of [generated_graph_data.json] (the time stamp
    [last_updated] is written and never read back). *)
Record snapshot : Type := {
  snap_nodes : list node;
  snap_edges : list edge;
  snap_deleted_sample_nodes : list string
}.

(** The attributes of the service object the graph methods use, and the
    snapshot file. *)
Record service : Type := {
  generated_nodes : list node;
  generated_edges : list edge;
  deleted_sample_nodes : gset string;
  generated_data_file : option snapshot
}.

(** The object [__init__] builds when no snapshot file exists. *)
Definition init_service : service :=
  {| generated_nodes := []; generated_edges := [];
     deleted_sample_nodes := ∅; generated_data_file := None |}.

(** [_save_generated_data] and [_load_generated_data]; file-system
    errors are outside the embedding. *)
Definition _save_generated_data (s : service) : service :=
  {| generated_nodes := generated_nodes s;
     generated_edges := generated_edges s;
     deleted_sample_nodes := deleted_sample_nodes s;
     generated_data_file :=
       Some {| snap_nodes := generated_nodes s;
               snap_edges := generated_edges s;
               snap_deleted_sample_nodes := elements (deleted_sample_nodes s) |} |}.

Definition _load_generated_data (s : service) : service :=
  match generated_data_file s with
  | Some data =>
      {| generated_nodes := snap_nodes data;
         generated_edges := snap_edges data;
         deleted_sample_nodes := list_to_set (snap_deleted_sample_nodes data);
         generated_data_file := generated_data_file s |}
  | None =>
      {| generated_nodes := []; generated_edges := [];
         deleted_sample_nodes := ∅; generated_data_file := None |}
  end.

(** [_deduplicate_list_by_id]: [st] is [(unique_items, seen_ids)]. *)
Definition dedup_id_step {A : Type} (get_id : A -> string)
    (st : list A * gset string) (item : A) : list A * gset string :=
  let '(unique_items, seen_ids) := st in
  if bool_decide (get_id item ∈ seen_ids) then st
  else (unique_items ++ [item], seen_ids ∪ {[ get_id item ]}).

Definition _deduplicate_list_by_id {A : Type} (get_id : A -> string) (items : list A)
  : list A :=
  fst (fold_left (dedup_id_step get_id) items ([], ∅)).

(** [_deduplicate_generated_data] runs the same loop on both lists. *)
Definition _deduplicate_generated_data (s : service) : service :=
  {| generated_nodes := _deduplicate_list_by_id node_id (generated_nodes s);
     generated_edges := _deduplicate_list_by_id edge_id (generated_edges s);
     deleted_sample_nodes := deleted_sample_nodes s;
     generated_data_file := generated_data_file s |}.

(** [_get_sample_graph_data] *)
Definition mk_node (i l t : string) (p : list (string * pyval)) : node :=
  {| node_id := i; node_label := l; node_type := t; node_properties := p |}.

Definition mk_edge (i s t ty : string) (w : float) (p : list (string * pyval)) : edge :=
  {| edge_id := i; edge_source := s; edge_target := t; edge_type := ty;
     edge_weight := w; edge_properties := p |}.

Definition sample_nodes : list node :=
  [ mk_node "tim_cook" "Tim Cook" "PERSON" [("role", VStr "CEO")];
    mk_node "apple" "Apple Inc" "ORGANIZATION" [("industry", VStr "Technology")];
    mk_node "cupertino" "Cupertino" "LOCATION" [("state", VStr "California")];
    mk_node "elon_musk" "Elon Musk" "PERSON" [("role", VStr "CEO")];
    mk_node "spacex" "SpaceX" "ORGANIZATION" [("industry", VStr "Aerospace")];
    mk_node "tesla" "Tesla" "ORGANIZATION" [("industry", VStr "Automotive")];
    mk_node "mark_zuckerberg" "Mark Zuckerberg" "PERSON" [("role", VStr "CEO")];
    mk_node "meta" "Meta" "ORGANIZATION" [("industry", VStr "Social Media")];
    mk_node "facebook" "Facebook" "TECHNOLOGY" [("type", VStr "Platform")];
    mk_node "instagram" "Instagram" "TECHNOLOGY" [("type", VStr "Platform")];
    mk_node "harvard_generated" "Harvard University" "ORGANIZATION"
      [("source", VStr "harvard.wav"); ("generated", VBool true)];
    mk_node "research_generated" "Academic Research" "CONCEPT"
      [("source", VStr "harvard.wav"); ("generated", VBool true)];
    mk_node "education_generated" "Higher Education" "CONCEPT"
      [("source", VStr "harvard.wav"); ("generated", VBool true)] ].

Definition sample_edges : list edge :=
  [ mk_edge "e1" "tim_cook" "apple" "CEO_OF" 1.0 [];
    mk_edge "e2" "apple" "cupertino" "HEADQUARTERED_IN" 1.0 [];
    mk_edge "e3" "elon_musk" "spacex" "FOUNDED" 1.0 [("year", VStr "2002")];
    mk_edge "e4" "elon_musk" "tesla" "CEO_OF" 1.0 [];
    mk_edge "e5" "mark_zuckerberg" "meta" "CEO_OF" 1.0 [];
    mk_edge "e6" "meta" "facebook" "OWNS" 1.0 [];
    mk_edge "e7" "meta" "instagram" "OWNS" 1.0 [];
    mk_edge "e_harvard_1" "harvard_generated" "research_generated" "CONDUCTS" 1.0
      [("source", VStr "harvard.wav"); ("generated", VBool true)];
    mk_edge "e_harvard_2" "harvard_generated" "education_generated" "PROVIDES" 1.0
      [("source", VStr "harvard.wav"); ("generated", VBool true)] ].

(** A graph as the methods return it: the keys [nodes] and [edges]. *)
Record graph : Type := { nodes : list node; edges : list edge }.

Definition _get_sample_graph_data : graph :=
  {| nodes := sample_nodes; edges := sample_edges |}.

(** *** Post-processing of the extraction *)

Record processed_entity : Type := {
  pe_name : string;
  pe_type : string;
  pe_confidence : float;
  pe_position : Z
}.

Record processed_relationship : Type := {
  pr_source : string;
  pr_target : string;
  pr_type : string;
  pr_weight : float;
  pr_confidence : float
}.

Definition post_entity_step (acc : list processed_entity) (e : entity)
  : list processed_entity :=
  let entity_name := e_name e in
  let entity_type := e_type e in
  if (String.length entity_name <? 2)
     || in_list (lower entity_name) ["the"; "a"; "an"; "this"; "that"]
  then acc
  else
    let entity_type :=
      if in_list (lower entity_name)
           ["tacos al pastor"; "tacos"; "beer"; "ham"; "pickle"; "salt pickle"]
      then "FOOD"
      else if in_list (lower entity_name) ["health"; "zest"; "odor"; "smell"]
      then "CONCEPT"
      else if in_list (lower entity_name) ["heat"; "cold"; "dip"]
      then "CONDITION"
      else entity_type in
    acc ++ [{| pe_name := entity_name; pe_type := entity_type;
               pe_confidence := e_confidence e;
               pe_position := Z.of_nat (e_position e) |}].

Definition post_food_step (text : string) (processed : list processed_entity)
    (term : string) : list processed_entity :=
  if contains term (lower text)
     && negb (existsb (fun e => String.eqb (lower (pe_name e)) term) processed)
  then processed ++ [{| pe_name := title term; pe_type := "FOOD";
                        pe_confidence := 0.85%float;
                        pe_position := find (lower text) term |}]
  else processed.

Definition _post_process_entities (entities : list entity) (text : string)
  : list processed_entity :=
  let processed := fold_left post_entity_step entities [] in
  let processed :=
    if contains "harvard" (lower text)
    then processed ++ [{| pe_name := "Harvard University"; pe_type := "ORGANIZATION";
                          pe_confidence := 0.9%float;
                          pe_position := find (lower text) "harvard" |}]
    else processed in
  fold_left (post_food_step text) ["beer"; "ham"; "tacos"; "pickle"] processed.

Definition post_rel_step (text : string) (acc : list processed_relationship)
    (rel : relationship) : list processed_relationship :=
  let source := r_source rel in
  let target := r_target rel in
  if (String.length source <? 2) || (String.length target <? 2) then acc
  else
    let rel_type :=
      if contains "restore" (lower text) && contains "health" (lower target)
      then "RESTORES"
      else if contains "taste" (lower text)
              && existsb (fun food => contains food (lower source)) ["pickle"; "ham"; "tacos"]
      then "TASTES_WITH"
      else r_type rel in
    acc ++ [{| pr_source := source; pr_target := target; pr_type := rel_type;
               pr_weight := r_weight rel; pr_confidence := r_confidence rel |}].

Definition _post_process_relationships (relationships : list relationship) (text : string)
  : list processed_relationship :=
  fold_left (post_rel_step text) relationships [].

(** [dict[k] = v] on a dictionary kept in insertion order. *)
Fixpoint dict_set (k v : string) (d : list (string * string)) : list (string * string) :=
  match d with
  | [] => [(k, v)]
  | (k', v') :: d' =>
      if String.eqb k' k then (k, v) :: d' else (k', v') :: dict_set k v d'
  end.

Definition dict_has (k : string) (d : list (string * string)) : bool :=
  existsb (fun kv => String.eqb (fst kv) k) d.

(** [enumerate] *)
Fixpoint enumerate_from {A : Type} (i : nat) (l : list A) : list (nat * A) :=
  match l with
  | [] => []
  | x :: l' => (i, x) :: enumerate_from (S i) l'
  end.

Definition enumerate {A : Type} (l : list A) : list (nat * A) := enumerate_from 0 l.

(** Truth value of [transcript_id] and of [user_id]. *)
Definition truthy_id (transcript_id : option Z) : option Z :=
  match transcript_id with
  | Some z => if (z =? 0)%Z then None else Some z
  | None => None
  end.

Definition or_default (user_id : option string) (d : string) : string :=
  match user_id with
  | Some u => if String.eqb u "" then d else u
  | None => d
  end.

(** [f"{prefix}_{transcript_id}_{i}" if transcript_id else f"{prefix}_{i}"] *)
Definition indexed_id (prefix : string) (transcript_id : option Z) (i : nat) : string :=
  match truthy_id transcript_id with
  | Some z => String.append prefix (String.append "_" (String.append (str_of_Z z)
                (String.append "_" (str_of_nat i))))
  | None => String.append prefix (String.append "_" (str_of_nat i))
  end.

Definition source_tag (transcript_id : option Z) : string :=
  match truthy_id transcript_id with
  | Some z => String.append "transcript_" (str_of_Z z)
  | None => "text_import"
  end.

(** The loop that builds [new_nodes]. *)
Definition new_node_step (transcript_id : option Z) (user_id : option string)
    (new_nodes : list node) (ie : nat * processed_entity) : list node :=
  let '(i, entity) := ie in
  let entity_name := pe_name entity in
  if String.eqb entity_name "" || (String.length (strip entity_name) =? 0) then new_nodes
  else
    new_nodes ++
    [{| node_id := indexed_id "extracted" transcript_id i;
        node_label := strip entity_name;
        node_type := pe_type entity;
        node_properties :=
          [("confidence", VFloat (pe_confidence entity));
           ("source", VStr (source_tag transcript_id));
           ("user_id", VStr (or_default user_id "local-user-1"));
           ("position", VInt (pe_position entity))] |}].

(** The loop that builds [entity_name_to_id]. *)
Definition alias_word_step (nid : string) (d : list (string * string)) (word : string)
  : list (string * string) :=
  if (2 <? String.length word) && negb (dict_has word d) then dict_set word nid d else d.

Definition alias_node_step (d : list (string * string)) (n : node) : list (string * string) :=
  let entity_name := lower (node_label n) in
  let d := dict_set entity_name (node_id n) d in
  fold_left (alias_word_step (node_id n)) (split entity_name) d.

Definition build_name_index (new_nodes : list node) : list (string * string) :=
  fold_left alias_node_step new_nodes [].

(** The search for the best matching node: [st] is
    [(best_match, best_score)]. Scores are lengths or half lengths. *)
Definition match_step (text : string) (st : option string * Q) (kv : string * string)
  : option string * Q :=
  let '(entity_name, nid) := kv in
  if contains entity_name text || contains text entity_name then
    let score :=
      if String.eqb entity_name text
      then inject_Z (Z.of_nat (String.length entity_name))
      else (inject_Z (Z.of_nat (String.length entity_name)) / 2)%Q in
    if negb (Qle_bool score (snd st)) then (Some nid, score) else st
  else st.

Definition best_match (text : string) (d : list (string * string)) : option string :=
  fst (fold_left (match_step text) d (None, 0%Q)).

(** [not x] for an optional string. *)
Definition falsy (x : option string) : bool :=
  match x with
  | Some v => String.eqb v ""
  | None => true
  end.

(** The loop that builds [new_edges]. *)
Definition new_edge_step (transcript_id : option Z) (user_id : option string)
    (entity_name_to_id : list (string * string))
    (new_edges : list edge) (ir : nat * processed_relationship) : list edge :=
  let '(i, rel) := ir in
  let source_text := lower (pr_source rel) in
  let target_text := lower (pr_target rel) in
  let source_id := best_match source_text entity_name_to_id in
  let target_id := best_match target_text entity_name_to_id in
  match source_id, target_id with
  | Some sid, Some tid =>
      if falsy source_id || falsy target_id then new_edges
      else
        new_edges ++
        [{| edge_id := indexed_id "rel" transcript_id i;
            edge_source := sid;
            edge_target := tid;
            edge_type := pr_type rel;
            edge_weight := pr_weight rel;
            edge_properties :=
              [("confidence", VFloat (pr_confidence rel));
               ("source", VStr (source_tag transcript_id));
               ("user_id", VStr (or_default user_id "local-user-1"))] |}]
  | _, _ => new_edges
  end.

(** What [generate_graph_from_text] returns. *)
Record generate_result : Type := {
  gr_nodes : list node;
  gr_edges : list edge;
  gr_transcript_id : option Z;
  gr_entities_created : nat;
  gr_relationships_created : nat
}.

(** What [delete_node] returns. *)
Record delete_result : Type := { nodes_removed : nat; edges_removed : nat }.

(** What [clear_all_graph_data] returns (the counts). *)
Record clear_result : Type := {
  cr_nodes_removed : nat;
  cr_edges_removed : nat;
  cr_generated_nodes_removed : nat;
  cr_generated_edges_removed : nat;
  cr_sample_nodes_removed : nat;
  cr_sample_edges_removed : nat
}.

(** What [import_text] returns. *)
Record import_result : Type := { content_length : nat; entities_created : nat }.

Definition ids_of {A : Type} (get_id : A -> string) (l : list A) : gset string :=
  list_to_set (get_id <$> l).

(** The two loops of [generate_graph_from_text] over the extracted data. *)
Definition make_new_nodes (entities : list processed_entity)
    (transcript_id : option Z) (user_id : option string) : list node :=
  fold_left (new_node_step transcript_id user_id) (enumerate entities) [].

Definition make_new_edges (relationships : list processed_relationship)
    (new_nodes : list node) (transcript_id : option Z) (user_id : option string)
  : list edge :=
  fold_left (new_edge_step transcript_id user_id (build_name_index new_nodes))
    (enumerate relationships) [].

Section Service.
(** The spaCy pipeline of the host, when there is one. *)
Variable spacy : option (string -> list entity * list relationship).

Definition extract_entities_and_relationships (transcript_text : string)
  : list processed_entity * list processed_relationship :=
  let result := enhance_with_nlp spacy transcript_text in
  (_post_process_entities (fst result) transcript_text,
   _post_process_relationships (snd result) transcript_text).

(** The store update of [generate_graph_from_text]: insertion of the
    items whose id is new, deduplication, save. *)
Definition merge_generated (new_nodes : list node) (new_edges : list edge) (s : service)
  : service :=
  let existing_node_ids := ids_of node_id (generated_nodes s) in
  let existing_edge_ids := ids_of edge_id (generated_edges s) in
  let new_unique_nodes := filter (fun n => node_id n ∉ existing_node_ids) new_nodes in
  let new_unique_edges := filter (fun e => edge_id e ∉ existing_edge_ids) new_edges in
  _save_generated_data
    (_deduplicate_generated_data
       {| generated_nodes := generated_nodes s ++ new_unique_nodes;
          generated_edges := generated_edges s ++ new_unique_edges;
          deleted_sample_nodes := deleted_sample_nodes s;
          generated_data_file := generated_data_file s |}).

Definition generate_graph_from_text (transcript_text : string)
    (transcript_id : option Z) (user_id : option string) (s : service)
  : service * generate_result :=
  let extracted_data := extract_entities_and_relationships transcript_text in
  let entities_created := length (fst extracted_data) in
  let relationships_created := length (snd extracted_data) in
  let new_nodes := make_new_nodes (fst extracted_data) transcript_id user_id in
  let new_edges := make_new_edges (snd extracted_data) new_nodes transcript_id user_id in
  let s' := merge_generated new_nodes new_edges s in
  let current_data := _get_sample_graph_data in
  let all_nodes := nodes current_data ++ generated_nodes s' in
  let all_edges := edges current_data ++ generated_edges s' in
  (s',
   {| gr_nodes := _deduplicate_list_by_id node_id all_nodes;
      gr_edges := _deduplicate_list_by_id edge_id all_edges;
      gr_transcript_id := transcript_id;
      gr_entities_created := entities_created;
      gr_relationships_created := relationships_created |}).
End Service.

Definition touches (nid : string) (e : edge) : Prop :=
  edge_source e = nid ∨ edge_target e = nid.

#[global] Instance touches_dec nid e : Decision (touches nid e).
Proof. unfold touches. apply _. Defined.

Definition delete_node (nid : string) (s : service) : service * delete_result :=
  let original_generated_nodes := length (generated_nodes s) in
  let kept_nodes := filter (fun n => node_id n ≠ nid) (generated_nodes s) in
  let nodes_removed := original_generated_nodes - length kept_nodes in
  let original_generated_edges := length (generated_edges s) in
  let kept_edges :=
    filter (fun e => edge_source e ≠ nid ∧ edge_target e ≠ nid) (generated_edges s) in
  let edges_removed := original_generated_edges - length kept_edges in
  let sample_data := _get_sample_graph_data in
  let sample_node_ids := ids_of node_id (nodes sample_data) in
  let is_sample := bool_decide (nid ∈ sample_node_ids) in
  let deleted :=
    if is_sample then deleted_sample_nodes s ∪ {[ nid ]} else deleted_sample_nodes s in
  let nodes_removed := if is_sample then nodes_removed + 1 else nodes_removed in
  let edges_removed :=
    if is_sample
    then edges_removed + length (filter (touches nid) (edges sample_data))
    else edges_removed in
  (_load_generated_data
     (_save_generated_data
        {| generated_nodes := kept_nodes;
           generated_edges := kept_edges;
           deleted_sample_nodes := deleted;
           generated_data_file := generated_data_file s |}),
   {| nodes_removed := nodes_removed; edges_removed := edges_removed |}).

Definition clear_all_graph_data (user_id : option string) (s : service)
  : service * clear_result :=
  let generated_nodes_count := length (generated_nodes s) in
  let generated_edges_count := length (generated_edges s) in
  let sample_data := _get_sample_graph_data in
  let sample_nodes_count := length (nodes sample_data) in
  let sample_edges_count := length (edges sample_data) in
  let deleted :=
    fold_left (fun d n => d ∪ {[ node_id n ]}) (nodes sample_data) (deleted_sample_nodes s) in
  (_load_generated_data
     (_save_generated_data
        {| generated_nodes := []; generated_edges := [];
           deleted_sample_nodes := deleted;
           generated_data_file := generated_data_file s |}),
   {| cr_nodes_removed := generated_nodes_count + sample_nodes_count;
      cr_edges_removed := generated_edges_count + sample_edges_count;
      cr_generated_nodes_removed := generated_nodes_count;
      cr_generated_edges_removed := generated_edges_count;
      cr_sample_nodes_removed := sample_nodes_count;
      cr_sample_edges_removed := sample_edges_count |}).

Definition get_combined_graph_data (s : service) : graph :=
  let sample_data := _get_sample_graph_data in
  let filtered_sample_nodes :=
    filter (fun n => node_id n ∉ deleted_sample_nodes s) (nodes sample_data) in
  let filtered_sample_edges :=
    filter (fun e => (edge_source e ∉ deleted_sample_nodes s)
                     ∧ (edge_target e ∉ deleted_sample_nodes s)) (edges sample_data) in
  {| nodes := filtered_sample_nodes ++ generated_nodes s;
     edges := filtered_sample_edges ++ generated_edges s |}.

(** *** [import_text] *)

(** The [entities] table of [_create_entities_locally]:
    id, label, type, category. *)
Definition local_entities : list (string * string * string * string) :=
  [ ("google", "Google", "ORGANIZATION", "tech");
    ("amazon", "Amazon", "ORGANIZATION", "tech");
    ("microsoft", "Microsoft", "ORGANIZATION", "tech");
    ("new_york", "New York", "LOCATION", "city");
    ("silicon_valley", "Silicon Valley", "LOCATION", "region");
    ("california", "California", "LOCATION", "state");
    ("mba_program", "MBA Program", "CONCEPT", "education");
    ("gmat_score", "GMAT Score", "CONCEPT", "education");
    ("business_school", "Business School", "CONCEPT", "education");
    ("online_education", "Online Education", "CONCEPT", "education");
    ("career_development", "Career Development", "CONCEPT", "career");
    ("professional_growth", "Professional Growth", "CONCEPT", "career");
    ("leadership", "Leadership", "CONCEPT", "career");
    ("management", "Management", "CONCEPT", "career");
    ("tech_industry", "Tech Industry", "CONCEPT", "industry");
    ("ecommerce", "E-commerce", "CONCEPT", "industry");
    ("cloud_computing", "Cloud Computing", "CONCEPT", "industry") ].

(** The [relationships] table: source, target, type (weight 1.0). *)
Definition local_relationships : list (string * string * string) :=
  [ ("google", "tech_industry", "BELONGS_TO");
    ("amazon", "tech_industry", "BELONGS_TO");
    ("microsoft", "tech_industry", "BELONGS_TO");
    ("amazon", "ecommerce", "DOMINATES");
    ("google", "cloud_computing", "PROVIDES");
    ("microsoft", "cloud_computing", "PROVIDES");
    ("google", "california", "HEADQUARTERED_IN");
    ("amazon", "california", "HEADQUARTERED_IN");
    ("microsoft", "california", "HEADQUARTERED_IN");
    ("silicon_valley", "california", "LOCATED_IN");
    ("tech_industry", "silicon_valley", "CENTERS_IN");
    ("mba_program", "business_school", "PART_OF");
    ("gmat_score", "mba_program", "REQUIRED_FOR");
    ("business_school", "education", "CATEGORY");
    ("online_education", "mba_program", "DELIVERS");
    ("mba_program", "career_development", "HELPS_WITH");
    ("career_development", "professional_growth", "LEADS_TO");
    ("career_development", "leadership", "DEVELOPS");
    ("leadership", "management", "INVOLVES");
    ("tech_industry", "career_development", "OFFERS");
    ("ecommerce", "career_development", "OFFERS");
    ("cloud_computing", "career_development", "OFFERS");
    ("google", "career_development", "PROVIDES");
    ("amazon", "career_development", "PROVIDES");
    ("microsoft", "career_development", "PROVIDES") ].

Definition local_node (source_name : string) (entity : string * string * string * string)
  : node :=
  let '(i, l, t, c) := entity in
  {| node_id := i; node_label := l; node_type := t;
     node_properties := [("source", VStr source_name); ("category", VStr c)] |}.

Definition local_edge (source_name : string) (ir : nat * (string * string * string))
  : edge :=
  let '(i, (src, tgt, ty)) := ir in
  {| edge_id := String.append "edge_" (str_of_nat i);
     edge_source := src; edge_target := tgt; edge_type := ty;
     edge_weight := 1.0%float;
     edge_properties := [("source", VStr source_name)] |}.

Definition _create_entities_locally (text source_name : string) (s : service)
  : service * nat :=
  let nodes := local_node source_name <$> local_entities in
  let edges := local_edge source_name <$> enumerate local_relationships in
  (_save_generated_data
     {| generated_nodes := nodes;
        generated_edges := edges;
        deleted_sample_nodes := deleted_sample_nodes s;
        generated_data_file := generated_data_file s |},
   length nodes).

Definition import_text (text : string) (title : option string) (s : service)
  : service * import_result :=
  let '(s', entities_created) :=
    _create_entities_locally text (or_default title "Direct Text Import") s in
  (s', {| content_length := String.length text; entities_created := entities_created |}).

End KnowledgeGraphService.

(** ** Definitions used by the statements *)

Module ExtractionSpec.
Import PyStr Re RelationshipManager.
Set Warnings "-inexact-float".

(** The lower-cased name the last loop of [extract_entities] records. *)
Definition name_key (e : entity) : string := lower (e_name e).

(** The confidence test of the last loop. *)
Definition confident (e : entity) : bool := (0.6 <=? e_confidence e)%float.

(** The last loop of [extract_entities] as a recursion on the list that
    is still to be read, [seen] being the names recorded so far. *)
Fixpoint pass_from (seen : gset string) (l : list entity) : list entity :=
  match l with
  | [] => []
  | e :: l' =>
      if negb (bool_decide (name_key e ∈ seen)) && confident e
      then e :: pass_from (seen ∪ {[ name_key e ]}) l'
      else pass_from seen l'
  end.

Definition scenario_A_text : string := "Tim Cook is the CEO of Apple Inc.".
Definition lowercase_text : string := "python".

End ExtractionSpec.

Module StoreSpec.
Import PyStr RelationshipManager KnowledgeGraphService.
Set Warnings "-inexact-float".

(** The loop of [_deduplicate_list_by_id] as a recursion on the list
    that is still to be read, [seen] being the ids recorded so far. *)
Fixpoint dedup_from {A : Type} (get_id : A -> string) (seen : gset string) (l : list A)
  : list A :=
  match l with
  | [] => []
  | x :: l' =>
      if bool_decide (get_id x ∈ seen) then dedup_from get_id seen l'
      else x :: dedup_from get_id (seen ∪ {[ get_id x ]}) l'
  end.

(** The insertion of [generate_graph_from_text] on one of the two lists:
    the items with a new id are appended, then the list is deduplicated. *)
Definition merged {A : Type} (get_id : A -> string) (old new : list A) : list A :=
  _deduplicate_list_by_id get_id
    (old ++ filter (fun x => get_id x ∉ ids_of get_id old) new).

(** Every generated edge starts and ends at a generated node. *)
Definition closed (s : service) : Prop :=
  forall e, e ∈ generated_edges s ->
    edge_source e ∈ (node_id <$> generated_nodes s)
    ∧ edge_target e ∈ (node_id <$> generated_nodes s).

(** No edge of the graph dangles. *)
Definition no_dangling (g : graph) : Prop :=
  forall e, e ∈ edges g ->
    (∃ n, n ∈ nodes g ∧ node_id n = edge_source e)
    ∧ (∃ n, n ∈ nodes g ∧ node_id n = edge_target e).

(** The states the store reaches from an empty generated graph by calls
    of [generate_graph_from_text], [delete_node] and
    [clear_all_graph_data]. *)
Inductive reachable (spacy : option (string -> list entity * list relationship))
  : service -> Prop :=
| reach_empty s :
    generated_nodes s = [] -> generated_edges s = [] -> reachable spacy s
| reach_generate s text transcript_id user_id :
    reachable spacy s ->
    reachable spacy (generate_graph_from_text spacy text transcript_id user_id s).1
| reach_delete s nid :
    reachable spacy s -> reachable spacy (delete_node nid s).1
| reach_clear s user_id :
    reachable spacy s -> reachable spacy (clear_all_graph_data user_id s).1.

(** The parts of a node and of an edge that do not carry provenance. *)
Definition node_shape (n : node) : string * string * string :=
  (node_id n, node_label n, node_type n).

(** Seed items and inputs of the scenarios. *)
Definition seed_apple : node :=
  mk_node "apple" "Apple Inc" "ORGANIZATION" [("industry", VStr "Technology")].
Definition seed_edge_e1 : edge := mk_edge "e1" "tim_cook" "apple" "CEO_OF" 1.0 [].

Definition text_tim_cook : string := "Tim Cook is the CEO of Apple Inc.".
Definition text_elon_musk : string := "Elon Musk founded SpaceX.".


(** The store after [delete_node("apple")] on a fresh service. *)
Definition apple_deleted : service := (delete_node "apple" init_service).1.

End StoreSpec.

(** ** [RelationshipManager]: facts and verb normalisation *)

Module FactExtraction.
Import PyStr Re RelationshipManager.

(** [s.upper()] *)
Definition upper (s : string) : string := smap upper_c s.

(** [s[n:]] *)
Fixpoint drop (n : nat) (s : string) : string :=
  match n, s with
  | S n', String _ s' => drop n' s'
  | _, _ => s
  end.

(** [re.search(r, s)] as a truth value: some position has a match. *)
Definition search (ic : bool) (r : regex) (s : string) : bool :=
  match finditer ic r s with
  | [] => false
  | _ :: _ => true
  end.

(** [re.split(r, s)] for a pattern without groups: the pieces of [s]
    between the matches; [last] is the end of the previous match. *)
Fixpoint split_pieces (ms : list rmatch) (s : string) (last : nat) : list string :=
  match ms with
  | [] => [drop last s]
  | m :: ms' =>
      take (m_start m - last) (drop last s)
      :: split_pieces ms' s (m_start m + String.length (m_group m))
  end.

Definition re_split (ic : bool) (r : regex) (s : string) : list string :=
  split_pieces (finditer ic r s) s 0.

(** [[.!?]+] *)
Definition sentence_end : regex := plus [CChar "."; CChar "!"; CChar "?"].

(** [factual_indicators] of [_is_factual_sentence] *)
Definition factual_indicators : list regex :=
  [ seqs [WordB; lit "is"; WordB];
    seqs [WordB; lit "are"; WordB];
    seqs [WordB; lit "was"; WordB];
    seqs [WordB; lit "were"; WordB];
    seqs [WordB; lit "has"; WordB];
    seqs [WordB; lit "have"; WordB];
    seqs [WordB; lit "had"; WordB];
    (* \bdevelops?\b, \bcreates?\b, \bmakes?\b, \bworks?\b *)
    seqs [WordB; lit "develop"; Opt (chr "s"); WordB];
    seqs [WordB; lit "create"; Opt (chr "s"); WordB];
    seqs [WordB; lit "make"; Opt (chr "s"); WordB];
    seqs [WordB; lit "work"; Opt (chr "s"); WordB];
    seqs [WordB; lit "headquartered"; WordB];
    seqs [WordB; lit "located"; WordB] ].

Definition _is_factual_sentence (sentence : string) : bool :=
  existsb (fun indicator => search true indicator sentence) factual_indicators.

(** The loop of [extract_facts] over the sentences. *)
Definition fact_step (facts : list string) (sentence : string) : list string :=
  let sentence := strip sentence in
  if (10 <? String.length sentence) && _is_factual_sentence sentence
  then facts ++ [sentence]
  else facts.

Definition extract_facts (text : string) : list string :=
  let sentences := re_split false sentence_end text in
  firstn 20 (fold_left fact_step sentences []).

(** [relationship_mapping] of [_normalize_verb_relationship] *)
Definition relationship_mapping : gmap string string :=
  list_to_map
  [ ("own", "OWNS"); ("owns", "OWNS");
    ("create", "CREATES"); ("creates", "CREATES");
    ("develop", "DEVELOPS"); ("develops", "DEVELOPS");
    ("found", "FOUNDED"); ("founded", "FOUNDED");
    ("lead", "LEADS"); ("leads", "LEADS");
    ("manage", "MANAGES"); ("manages", "MANAGES");
    ("work", "WORKS_AT"); ("works", "WORKS_AT");
    ("locate", "LOCATED_IN"); ("located", "LOCATED_IN");
    ("headquarter", "HEADQUARTERED_IN"); ("headquartered", "HEADQUARTERED_IN") ].

Definition _normalize_verb_relationship (verb : string) : string :=
  let verb_lower := lower verb in
  default (upper verb) (relationship_mapping !! verb_lower).

End FactExtraction.

(** ** [KnowledgeGraphService.get_graph_data] and the background
    deduplication of [AutoSyncService] *)

Module GraphViews.
Import PyStr RelationshipManager KnowledgeGraphService.

Set Warnings "-inexact-float".

(** A row of [SELECT id, name, transcript FROM audio_files] and a row of
    [SELECT id, text FROM summaries]; a NULL column is [None]. *)
Definition audio_row : Type := Z * option string * option string.
Definition summary_row : Type := Z * option string.

(** [x or d] for a nullable text column. *)
Definition text_or (x : option string) (d : string) : string :=
  match x with
  | Some v => if String.eqb v "" then d else v
  | None => d
  end.

Definition audio_node (audio : audio_row) : node :=
  let '(audio_id, name, transcript) := audio in
  {| node_id := String.append "audio_" (str_of_Z audio_id);
     node_label := text_or name (String.append "Audio " (str_of_Z audio_id));
     node_type := "AUDIO";
     node_properties :=
       [("transcript", VStr (text_or transcript "")); ("audio_id", VInt audio_id)] |}.

Definition summary_node (summary : summary_row) : node :=
  let '(summary_id, text) := summary in
  {| node_id := String.append "summary_" (str_of_Z summary_id);
     node_label := String.append "Summary " (str_of_Z summary_id);
     node_type := "SUMMARY";
     node_properties :=
       [("text", VStr (text_or text "")); ("summary_id", VInt summary_id)] |}.

(** The edge of one pair of [zip(audio_rows, summary_rows)]. *)
Definition generates_edge (pair : audio_row * summary_row) : edge :=
  let '((audio_id, _, _), (summary_id, _)) := pair in
  {| edge_id := String.append "edge_" (String.append (str_of_Z audio_id)
                  (String.append "_" (str_of_Z summary_id)));
     edge_source := String.append "audio_" (str_of_Z audio_id);
     edge_target := String.append "summary_" (str_of_Z summary_id);
     edge_type := "GENERATES";
     edge_weight := 1.0%float;
     edge_properties := [] |}.

(** [zip] *)
Fixpoint zip {A B : Type} (l : list A) (k : list B) : list (A * B) :=
  match l, k with
  | x :: l', y :: k' => (x, y) :: zip l' k'
  | _, _ => []
  end.

(** [get_graph_data] on the rows the two queries return. *)
Definition get_graph_data (audio_rows : list audio_row) (summary_rows : list summary_row)
  : graph :=
  let nodes := (audio_node <$> audio_rows) ++ (summary_node <$> summary_rows) in
  let edges := generates_edge <$> zip audio_rows summary_rows in
  {| nodes := _deduplicate_list_by_id node_id nodes;
     edges := _deduplicate_list_by_id edge_id edges |}.

(** What [AutoSyncService.auto_deduplicate_graph] returns. *)
Record dedup_result : Type := { nodes_deduplicated : nat; edges_deduplicated : nat }.

Definition auto_deduplicate_graph (s : service) : service * dedup_result :=
  let initial_nodes := length (generated_nodes s) in
  let initial_edges := length (generated_edges s) in
  let s' := _deduplicate_generated_data s in
  let final_nodes := length (generated_nodes s') in
  let final_edges := length (generated_edges s') in
  (s', {| nodes_deduplicated := initial_nodes - final_nodes;
          edges_deduplicated := initial_edges - final_edges |}).

End GraphViews.

(** ** Further definitions used by the statements *)

Module MoreSpec.
Import PyStr Re RelationshipManager KnowledgeGraphService ExtractionSpec StoreSpec GraphViews.

Set Warnings "-inexact-float".

(** The common shape of the two loops of [_merge_entity_lists]: an entity
    whose lower-case name is new and whose confidence is at least 0.6 is
    appended, as [f merged e], and its name is recorded. *)
Definition merge_step (f : list entity -> entity -> entity)
    (st : list entity * gset string) (e : entity) : list entity * gset string :=
  if negb (bool_decide (name_key e ∈ st.2)) && confident e
  then (st.1 ++ [f st.1 e], st.2 ∪ {[ name_key e ]})
  else st.

(** The entity [_merge_entity_lists] appends for a pattern entity. *)
Definition renumbered (merged : list entity) (e : entity) : entity :=
  {| e_id := length merged; e_name := e_name e; e_type := e_type e;
     e_position := e_position e; e_confidence := e_confidence e |}.

(** The key [_merge_relationship_lists] records for a relationship. *)
Definition rel_key (rel : relationship) : string * string * string :=
  (lower (r_source rel), lower (r_target rel), r_type rel).

(** The states the store reaches from an empty generated graph by calls
    of the four mutating methods. *)
Inductive api_reachable (spacy : option (string -> list entity * list relationship))
  : service -> Prop :=
| api_empty s :
    generated_nodes s = [] -> generated_edges s = [] -> api_reachable spacy s
| api_generate s text transcript_id user_id :
    api_reachable spacy s ->
    api_reachable spacy (generate_graph_from_text spacy text transcript_id user_id s).1
| api_import s text title :
    api_reachable spacy s -> api_reachable spacy (import_text text title s).1
| api_delete s nid :
    api_reachable spacy s -> api_reachable spacy (delete_node nid s).1
| api_clear s user_id :
    api_reachable spacy s -> api_reachable spacy (clear_all_graph_data user_id s).1.

(** One call of a mutating method. *)
Inductive api_step (spacy : option (string -> list entity * list relationship))
  : service -> service -> Prop :=
| step_generate s text transcript_id user_id :
    api_step spacy s (generate_graph_from_text spacy text transcript_id user_id s).1
| step_import s text title : api_step spacy s (import_text text title s).1
| step_delete s nid : api_step spacy s (delete_node nid s).1
| step_clear s user_id : api_step spacy s (clear_all_graph_data user_id s).1.

(** The ids of the seed graph. *)
Definition sample_node_ids : list string := node_id <$> sample_nodes.
Definition sample_edge_ids : list string := edge_id <$> sample_edges.

(** The generated part of the store has no repeated id and shares no id
    with the seed graph. *)
Definition separated (s : service) : Prop :=
  NoDup (node_id <$> generated_nodes s)
  ∧ NoDup (edge_id <$> generated_edges s)
  ∧ (forall n, n ∈ generated_nodes s -> node_id n ∉ sample_node_ids)
  ∧ (forall e, e ∈ generated_edges s -> edge_id e ∉ sample_edge_ids).

(** The text [s] holds [sub] at offset [pos]. *)
Definition occurs_at (sub : string) (pos : nat) (s : string) : Prop :=
  ∃ pre post, s = String.append pre (String.append sub post) ∧ String.length pre = pos.

(** [s] has no whitespace at either end. *)
Definition stripped (s : string) : Prop := strip s = s.

(** The key [entity_name_to_id] gets for a node. *)
Definition label_key (n : node) : string := lower (node_label n).

(** A relationship with both end points of at least two characters. *)
Definition long_ends (rel : relationship) : Prop :=
  2 <= String.length (r_source rel) ∧ 2 <= String.length (r_target rel).

#[global] Instance long_ends_dec rel : Decision (long_ends rel).
Proof. unfold long_ends. apply _. Defined.

(** A processed relationship that copies a relationship. *)
Definition copies (p : processed_relationship) (rel : relationship) : Prop :=
  pr_source p = r_source rel ∧ pr_target p = r_target rel ∧ pr_type p = r_type rel
  ∧ pr_weight p = r_weight rel ∧ pr_confidence p = r_confidence rel.

(** The terms of the two fixed lists of [_post_process_entities]. *)
Definition skipped_names : list string := ["the"; "a"; "an"; "this"; "that"].
Definition food_names : list string :=
  ["tacos al pastor"; "tacos"; "beer"; "ham"; "pickle"; "salt pickle"].
Definition food_terms : list string := ["beer"; "ham"; "tacos"; "pickle"].

(** Sample data: two extracted entities and a relationship between them
    written in other letter cases. *)
Definition two_entities : list processed_entity :=
  [ {| pe_name := "Tim Cook"; pe_type := "PERSON";
       pe_confidence := 0.9%float; pe_position := 0%Z |};
    {| pe_name := " Apple "; pe_type := "ORGANIZATION";
       pe_confidence := 0.8%float; pe_position := 23%Z |} ].

Definition shouted_relationship : processed_relationship :=
  {| pr_source := "TIM COOK"; pr_target := "apple"; pr_type := "CEO_OF";
     pr_weight := 0.9%float; pr_confidence := 0.8%float |}.

End MoreSpec.

(** ** Properties *)

Module ListFacts.

(** An invariant of the accumulator of a loop holds when the loop ends. *)
Lemma fold_left_inv {A B : Type} (P : A -> Prop) (f : A -> B -> A) (l : list B) (a : A) :
  P a -> (forall a' x, x ∈ l -> P a' -> P (f a' x)) -> P (fold_left f l a).
Proof.
  revert a. induction l as [|x l IH]; intros a Ha Hstep; simpl; [exact Ha|].
  apply IH.
  - apply Hstep; [left | exact Ha].
  - intros a' y Hy. apply Hstep. by right.
Qed.

End ListFacts.

(** *** The extractor *)

Module ExtractionProps.
Import PyStr Re RelationshipManager ExtractionSpec ListFacts.
Set Warnings "-inexact-float".

(** *** Characters of a match come from the subject *)

Lemma sany_take p n s : sany p (take n s) = true -> sany p s = true.
Proof.
  revert n. induction s as [|c s IH]; intros [|n]; simpl; try discriminate.
  intros H. apply orb_true_iff in H as [H|H]; apply orb_true_iff; eauto.
Qed.

Lemma sany_lstrip p s : sany p (lstrip s) = true -> sany p s = true.
Proof.
  induction s as [|c s IH]; simpl; [done|].
  destruct (isspace_c c); simpl; [|done].
  intros H. rewrite (IH H). apply orb_true_r.
Qed.

Lemma sany_rstrip p s : sany p (rstrip s) = true -> sany p s = true.
Proof.
  induction s as [|c s IH]; simpl; [done|].
  destruct (rstrip s) as [|d t] eqn:E.
  - destruct (isspace_c c); simpl; [done|]. rewrite orb_false_r. intros ->. done.
  - simpl. intros H. apply orb_true_iff in H as [H|H].
    + by rewrite H.
    + rewrite IH; [apply orb_true_r | done].
Qed.

Lemma sany_strip p s : sany p (strip s) = true -> sany p s = true.
Proof. intros H. by apply sany_lstrip, sany_rstrip. Qed.

Lemma finditer_go_sany p ic r m s : forall prev pos skip,
  m ∈ finditer_go ic r prev s pos skip -> sany p (m_group m) = true -> sany p s = true.
Proof.
  induction s as [|c s IH]; intros prev pos skip Hm Hp.
  - destruct skip; simpl in Hm; [|by apply elem_of_nil in Hm].
    destruct (match_at ic r prev "") as [[len caps]|]; [|by apply elem_of_nil in Hm].
    apply list_elem_of_singleton in Hm. subst m. simpl in Hp. by destruct len.
  - assert (Hrec : forall prev' pos' skip', m ∈ finditer_go ic r prev' s pos' skip' ->
                   sany p (String c s) = true).
    { intros ??? H. simpl. rewrite (IH _ _ _ H Hp). apply orb_true_r. }
    destruct skip; simpl in Hm; [|by eapply Hrec].
    destruct (match_at ic r prev (String c s)) as [[len caps]|]; [|by eapply Hrec].
    apply elem_of_cons in Hm as [->|Hm]; [|by eapply Hrec].
    simpl in Hp. by eapply sany_take.
Qed.

Lemma finditer_sany p ic r m s :
  m ∈ finditer ic r s -> sany p (m_group m) = true -> sany p s = true.
Proof. apply finditer_go_sany. Qed.

(** *** The candidates of [extract_entities] *)

(** What the three nested loops guarantee of every candidate. *)
Definition candidate_of (text : string) (e : entity) : Prop :=
  e_type e ∈ (fst <$> entity_patterns)
  ∧ keep_candidate (e_name e) (e_type e) = true
  ∧ e_confidence e = _calculate_confidence (e_name e) (e_type e)
  ∧ ∃ m p, m ∈ finditer true p text ∧ e_name e = strip (m_group m).

Lemma candidates_inv text e : e ∈ candidates text -> candidate_of text e.
Proof.
  unfold candidates. revert e.
  apply (fold_left_inv (fun st => forall e, e ∈ st.1 -> candidate_of text e)).
  { intros e H. by apply elem_of_nil in H. }
  intros st tp Htp Hst. unfold add_type.
  apply fold_left_inv; [exact Hst|].
  intros st' p _ Hst'. unfold add_pattern.
  apply (fold_left_inv (fun st => forall e, e ∈ st.1 -> candidate_of text e)); [exact Hst'|].
  intros [ents k] m Hm Hents e. unfold add_match.
  destruct (keep_candidate (strip (m_group m)) tp.1) eqn:Hk; [|apply Hents].
  simpl. intros He. apply elem_of_app in He as [He|He]; [by apply Hents|].
  apply list_elem_of_singleton in He. subst e. unfold candidate_of. simpl.
  split; [exact (list_elem_of_fmap_2 fst _ _ Htp)|]. split; [done|]. split; [done|]. eauto.
Qed.

Lemma candidate_upper_from_text text e :
  candidate_of text e -> any_upper (e_name e) = true -> any_upper text = true.
Proof.
  intros (_ & _ & _ & m & p & Hm & Hn). rewrite Hn. intros H.
  eapply finditer_sany; [exact Hm|]. by apply sany_strip.
Qed.

Lemma keep_candidate_meaningful name ty :
  keep_candidate name ty = true -> _is_meaningful_entity name ty = true.
Proof. unfold keep_candidate. intros H. by apply andb_true_iff in H as [_ H]. Qed.

Lemma candidate_type_or_upper text e :
  candidate_of text e -> e_type e = "TECHNOLOGY" ∨ any_upper (e_name e) = true.
Proof.
  intros (Hty & Hk & _). apply keep_candidate_meaningful in Hk.
  change (fst <$> entity_patterns)
    with ["PERSON"; "ORGANIZATION"; "LOCATION"; "TECHNOLOGY"] in Hty.
  repeat (apply elem_of_cons in Hty as [Hty|Hty]);
    [..|by apply elem_of_nil in Hty]; rewrite Hty in Hk |- *;
    try (by left); right; unfold _is_meaningful_entity in Hk; simpl in Hk;
    by apply andb_true_iff in Hk as [Hk _] || exact Hk.
Qed.

(** *** The last loop *)

Lemma dedup_fold l : forall u seen,
  (fold_left dedup_step l (u, seen)).1 = u ++ pass_from seen l.
Proof.
  induction l as [|e l IH]; intros u seen; cbn [fold_left pass_from].
  - by rewrite app_nil_r.
  - replace (dedup_step (u, seen) e)
      with (if negb (bool_decide (name_key e ∈ seen)) && confident e
            then (u ++ [e], seen ∪ {[ name_key e ]}) else (u, seen)) by reflexivity.
    destruct (negb (bool_decide (name_key e ∈ seen)) && confident e).
    + rewrite IH. by rewrite <- app_assoc.
    + apply IH.
Qed.

Lemma dedup_pass_spec l : dedup_pass l = pass_from ∅ l.
Proof. unfold dedup_pass. by rewrite dedup_fold. Qed.

Lemma pass_from_sublist l : forall seen, pass_from seen l `sublist_of` l.
Proof.
  induction l as [|e l IH]; intros seen; simpl; [done|].
  destruct (negb (bool_decide (name_key e ∈ seen)) && confident e).
  - by apply sublist_skip.
  - by apply sublist_cons.
Qed.

Lemma pass_from_elem l : forall seen e,
  e ∈ pass_from seen l -> confident e = true ∧ name_key e ∉ seen.
Proof.
  induction l as [|x l IH]; intros seen e; simpl.
  - intros H. by apply elem_of_nil in H.
  - destruct (negb (bool_decide (name_key x ∈ seen)) && confident x) eqn:E.
    + apply andb_true_iff in E as [E1 E2]. apply negb_true_iff, bool_decide_eq_false in E1.
      intros H. apply elem_of_cons in H as [->|H]; [done|].
      apply IH in H as [? Hn]. split; [done|].
      intros Hs. apply Hn. apply elem_of_union. by left.
    + apply IH.
Qed.

Lemma pass_from_NoDup l : forall seen, NoDup (name_key <$> pass_from seen l).
Proof.
  induction l as [|x l IH]; intros seen; simpl; [constructor|].
  destruct (negb (bool_decide (name_key x ∈ seen)) && confident x); [|apply IH].
  rewrite fmap_cons. apply NoDup_cons. split; [|apply IH].
  intros H. apply list_elem_of_fmap in H as (e & He & Hin).
  apply pass_from_elem in Hin as [_ Hin]. apply Hin.
  apply elem_of_union. right. by apply elem_of_singleton.
Qed.

Lemma pass_from_first l1 c l2 : forall seen,
  confident c = true -> name_key c ∉ seen ->
  (forall x, x ∈ l1 -> confident x = true -> name_key x ≠ name_key c) ->
  c ∈ pass_from seen (l1 ++ c :: l2).
Proof.
  induction l1 as [|x l1 IH]; intros seen Hc Hs Hl; simpl.
  - rewrite Hc. rewrite bool_decide_eq_false_2 by done. simpl. left.
  - destruct (negb (bool_decide (name_key x ∈ seen)) && confident x) eqn:E.
    + right. apply andb_true_iff in E as [_ E]. apply IH; [done| |].
      * assert (Hne : name_key x ≠ name_key c) by (apply Hl; [left|done]).
        intros H. apply elem_of_union in H as [H|H]; [done|].
        apply elem_of_singleton in H. congruence.
      * intros y Hy. apply Hl. by right.
    + apply IH; [done|done|]. intros y Hy. apply Hl. by right.
Qed.


(** *** The claims on the extractor *)

(** C1 (Scenario A), the code at the failing input: on
    "Tim Cook is the CEO of Apple Inc." [extract_entities] returns the
    PERSON entity "Tim Cook" and nothing else, because the matched text
    "Apple Inc" is a member of [stop_words] and is dropped for every
    entity type; [extract_relationships] returns the CEO_OF relationship
    from "Tim Cook" to "Apple Inc". *)
Theorem scenario_A_extraction :
  extract_entities scenario_A_text =
    [ {| e_id := 0; e_name := "Tim Cook"; e_type := "PERSON"; e_position := 0;
         e_confidence := (0.5 + 0.2 + 0.2)%float |} ]
  ∧ extract_relationships scenario_A_text =
    [ {| r_source := "Tim Cook"; r_target := "Apple Inc"; r_type := "CEO_OF";
         r_weight := 1.0%float; r_position := 0; r_confidence := 0.7%float |} ]
  ∧ bool_decide (lower "Apple Inc" ∈ stop_words) = true
  ∧ keep_candidate "Apple Inc" "ORGANIZATION" = false.
Proof. split_and!; vm_compute; reflexivity. Qed.

(** C6, counterexample: the text "python" has no uppercase character,
    yet [extract_entities] returns one TECHNOLOGY entity for it, with
    confidence 0.5 + 0.1, and the import counts one entity. *)
Lemma lowercase_text_has_entity :
  any_upper lowercase_text = false
  ∧ extract_entities lowercase_text =
    [ {| e_id := 0; e_name := "python"; e_type := "TECHNOLOGY"; e_position := 0;
         e_confidence := (0.5 + 0.1)%float |} ]
  ∧ KnowledgeGraphService.gr_entities_created
      (KnowledgeGraphService.generate_graph_from_text None lowercase_text None None
         KnowledgeGraphService.init_service).2 = 1.
Proof. split_and!; vm_compute; reflexivity. Qed.

(** C6, amended: on a text with no uppercase character every entity
    [extract_entities] returns has type TECHNOLOGY; PERSON, ORGANIZATION
    and LOCATION entities need an uppercase letter in the matched text. *)
Theorem lowercase_text_only_technology (text : string) (e : entity) :
  any_upper text = false ->
  e ∈ extract_entities text ->
  e_type e = "TECHNOLOGY".
Proof.
  intros Hlow He. unfold extract_entities in He. rewrite dedup_pass_spec in He.
  eapply elem_of_sublist in He; [|apply pass_from_sublist].
  apply candidates_inv in He.
  destruct (candidate_type_or_upper _ _ He) as [Hty|Hup]; [exact Hty|].
  apply (candidate_upper_from_text _ _ He) in Hup. congruence.
Qed.

Lemma lowercase_text_only_technology_witness :
  any_upper lowercase_text = false
  ∧ (forall e, e ∈ extract_entities lowercase_text -> e_type e = "TECHNOLOGY").
Proof.
  split; [reflexivity|].
  intros e. apply (lowercase_text_only_technology lowercase_text e). reflexivity.
Defined.

(** C8: every entity [extract_entities] returns has confidence at least
    0.6, no two returned entities have names that are equal up to letter
    case, the result keeps the order of the candidates, and a candidate
    with confidence at least 0.6 is returned when no earlier such
    candidate has its name up to case (the first occurrence is kept). *)
Theorem extract_entities_confident_unique (text : string) :
  Forall (fun e => (0.6 <=? e_confidence e)%float = true) (extract_entities text)
  ∧ NoDup ((fun e => lower (e_name e)) <$> extract_entities text)
  ∧ extract_entities text `sublist_of` candidates text
  ∧ (forall l1 c l2,
       candidates text = l1 ++ c :: l2 ->
       (0.6 <=? e_confidence c)%float = true ->
       (forall x, x ∈ l1 -> (0.6 <=? e_confidence x)%float = true ->
                  lower (e_name x) ≠ lower (e_name c)) ->
       c ∈ extract_entities text).
Proof.
  unfold extract_entities. rewrite dedup_pass_spec. split_and!.
  - apply Forall_forall. intros e He. by apply pass_from_elem in He as [He _].
  - apply pass_from_NoDup.
  - apply pass_from_sublist.
  - intros l1 c l2 -> Hc Hl. apply pass_from_first; [exact Hc| |exact Hl].
    apply not_elem_of_empty.
Qed.

End ExtractionProps.

(** *** The graph store *)

Module StoreProps.
Import PyStr RelationshipManager KnowledgeGraphService StoreSpec ListFacts.
Set Warnings "-inexact-float".

(** *** Deduplication by id *)

Section Dedup.
Context {A : Type} (get_id : A -> string).

Lemma dedup_id_fold l : forall u seen,
  (fold_left (dedup_id_step get_id) l (u, seen)).1 = u ++ dedup_from get_id seen l.
Proof.
  induction l as [|x l IH]; intros u seen; cbn [fold_left dedup_from].
  - by rewrite app_nil_r.
  - unfold dedup_id_step at 2.
    destruct (bool_decide (get_id x ∈ seen)); [apply IH|].
    rewrite IH. by rewrite <- app_assoc.
Qed.

Lemma dedup_spec l : _deduplicate_list_by_id get_id l = dedup_from get_id ∅ l.
Proof. unfold _deduplicate_list_by_id. by rewrite dedup_id_fold. Qed.

Lemma dedup_from_elem l : forall seen x,
  x ∈ dedup_from get_id seen l -> x ∈ l ∧ get_id x ∉ seen.
Proof.
  induction l as [|y l IH]; intros seen x; simpl.
  - intros H. by apply elem_of_nil in H.
  - destruct (bool_decide (get_id y ∈ seen)) eqn:E.
    + intros H. apply IH in H as [? ?]. split; [by right|done].
    + apply bool_decide_eq_false in E. intros H.
      apply elem_of_cons in H as [->|H]; [split; [left|done]|].
      apply IH in H as [? Hn]. split; [by right|].
      intros Hs. apply Hn. apply elem_of_union. by left.
Qed.

Lemma dedup_from_NoDup l : forall seen, NoDup (get_id <$> dedup_from get_id seen l).
Proof.
  induction l as [|y l IH]; intros seen; simpl; [constructor|].
  destruct (bool_decide (get_id y ∈ seen)); [apply IH|].
  rewrite fmap_cons. apply NoDup_cons. split; [|apply IH].
  intros H. apply list_elem_of_fmap in H as (x & Hx & Hin).
  apply dedup_from_elem in Hin as [_ Hin]. apply Hin.
  apply elem_of_union. right. apply elem_of_singleton. done.
Qed.

(** No id is lost. *)
Lemma dedup_from_covers l : forall seen x,
  x ∈ l -> get_id x ∉ seen -> get_id x ∈ (get_id <$> dedup_from get_id seen l).
Proof.
  induction l as [|y l IH]; intros seen x Hx Hs; simpl.
  - by apply elem_of_nil in Hx.
  - apply elem_of_cons in Hx as [->|Hx].
    + rewrite bool_decide_eq_false_2 by done. rewrite fmap_cons. left.
    + destruct (bool_decide (get_id y ∈ seen)) eqn:E; [by apply IH|].
      rewrite fmap_cons. destruct (decide (get_id x = get_id y)) as [->|Hne]; [left|].
      right. apply IH; [done|]. intros H. apply elem_of_union in H as [H|H]; [done|].
      apply elem_of_singleton in H. done.
Qed.

(** A list without repeated ids is left as it is. *)
Lemma dedup_from_fixed l : forall seen,
  NoDup (get_id <$> l) -> (forall x, x ∈ l -> get_id x ∉ seen) ->
  dedup_from get_id seen l = l.
Proof.
  induction l as [|y l IH]; intros seen Hnd Hs; simpl; [done|].
  rewrite fmap_cons in Hnd. apply NoDup_cons in Hnd as [Hy Hnd].
  rewrite bool_decide_eq_false_2 by (apply Hs; left). f_equal.
  apply IH; [done|]. intros x Hx H. apply elem_of_union in H as [H|H].
  - eapply Hs; [by right|done].
  - apply elem_of_singleton in H. apply Hy. rewrite <- H. by apply list_elem_of_fmap_2.
Qed.

(** The first item with a given id is kept. *)
Lemma dedup_from_first l1 c l2 : forall seen,
  get_id c ∉ seen -> (forall x, x ∈ l1 -> get_id x ≠ get_id c) ->
  c ∈ dedup_from get_id seen (l1 ++ c :: l2).
Proof.
  induction l1 as [|x l1 IH]; intros seen Hs Hl; simpl.
  - rewrite bool_decide_eq_false_2 by done. left.
  - assert (Hrec : forall seen', get_id c ∉ seen' ->
              c ∈ dedup_from get_id seen' (l1 ++ c :: l2)).
    { intros seen' H. apply IH; [done|]. intros y Hy. apply Hl. by right. }
    destruct (bool_decide (get_id x ∈ seen)); [by apply Hrec|].
    right. apply Hrec. intros H. apply elem_of_union in H as [H|H]; [done|].
    apply elem_of_singleton in H. eapply Hl; [left|done].
Qed.

Lemma dedup_elem l x : x ∈ _deduplicate_list_by_id get_id l -> x ∈ l.
Proof. rewrite dedup_spec. intros H. by apply dedup_from_elem in H as [H _]. Qed.

Lemma dedup_NoDup l : NoDup (get_id <$> _deduplicate_list_by_id get_id l).
Proof. rewrite dedup_spec. apply dedup_from_NoDup. Qed.

Lemma dedup_covers l x :
  x ∈ l -> get_id x ∈ (get_id <$> _deduplicate_list_by_id get_id l).
Proof. rewrite dedup_spec. intros H. apply dedup_from_covers; [done|]. apply not_elem_of_empty. Qed.

Lemma dedup_fixed l : NoDup (get_id <$> l) -> _deduplicate_list_by_id get_id l = l.
Proof.
  rewrite dedup_spec. intros H. apply dedup_from_fixed; [done|].
  intros x _. apply not_elem_of_empty.
Qed.

Lemma dedup_first l1 c l2 :
  (forall x, x ∈ l1 -> get_id x ≠ get_id c) ->
  c ∈ _deduplicate_list_by_id get_id (l1 ++ c :: l2).
Proof. rewrite dedup_spec. apply dedup_from_first. apply not_elem_of_empty. Qed.

Lemma elem_of_ids_of l i : i ∈ ids_of get_id l <-> i ∈ (get_id <$> l).
Proof. unfold ids_of. apply elem_of_list_to_set. Qed.

Lemma filter_none (P : A -> Prop) `{forall x, Decision (P x)} (l : list A) :
  (forall x, x ∈ l -> ¬ P x) -> filter P l = [].
Proof.
  induction l as [|x l IH]; intros Hl; [done|].
  rewrite filter_cons_False by (apply Hl; left). apply IH. intros y Hy. apply Hl. by right.
Qed.

Lemma filter_all (P : A -> Prop) `{forall x, Decision (P x)} (l : list A) :
  (forall x, x ∈ l -> P x) -> filter P l = l.
Proof.
  induction l as [|x l IH]; intros Hl; [done|].
  rewrite filter_cons_True by (apply Hl; left). f_equal. apply IH.
  intros y Hy. apply Hl. by right.
Qed.

Lemma merged_covers_old old new x :
  x ∈ old -> get_id x ∈ (get_id <$> merged get_id old new).
Proof. intros H. apply dedup_covers. apply elem_of_app. by left. Qed.

Lemma merged_covers_new old new x :
  x ∈ new -> get_id x ∈ (get_id <$> merged get_id old new).
Proof.
  intros H. destruct (decide (get_id x ∈ ids_of get_id old)) as [Hin|Hout].
  - apply elem_of_ids_of, list_elem_of_fmap in Hin as (y & -> & Hy).
    by apply merged_covers_old.
  - apply dedup_covers. apply elem_of_app. right. by apply list_elem_of_filter.
Qed.

Lemma merged_elem old new x : x ∈ merged get_id old new -> x ∈ old ∨ x ∈ new.
Proof.
  intros H. apply dedup_elem, elem_of_app in H as [H|H]; [by left|right].
  by apply list_elem_of_filter in H as [_ H].
Qed.

(** Items whose ids are new and pairwise distinct are all appended. *)
Lemma merged_disjoint old new :
  NoDup (get_id <$> old) -> NoDup (get_id <$> new) ->
  (forall x, x ∈ new -> get_id x ∉ ids_of get_id old) ->
  merged get_id old new = old ++ new.
Proof.
  intros Ho Hn Hd. unfold merged. rewrite filter_all by exact Hd.
  apply dedup_fixed. rewrite fmap_app. apply NoDup_app. split_and!; [done| |done].
  intros i Hi Hi'. apply list_elem_of_fmap in Hi' as (x & -> & Hx).
  apply (Hd x Hx). by apply elem_of_ids_of.
Qed.

(** Merging the same items a second time changes nothing. *)
Lemma merged_twice old new : merged get_id (merged get_id old new) new = merged get_id old new.
Proof.
  unfold merged at 1.
  rewrite filter_none.
  - rewrite app_nil_r. apply dedup_fixed. apply dedup_NoDup.
  - intros x Hx Hn. apply Hn. apply elem_of_ids_of. by apply merged_covers_new.
Qed.
End Dedup.

(** *** Save and load *)

Lemma load_save s :
  _load_generated_data (_save_generated_data s) =
  {| generated_nodes := generated_nodes s;
     generated_edges := generated_edges s;
     deleted_sample_nodes := deleted_sample_nodes s;
     generated_data_file := generated_data_file (_save_generated_data s) |}.
Proof.
  unfold _load_generated_data, _save_generated_data. cbn.
  f_equal. apply list_to_set_elements_L.
Qed.

Lemma generate_nodes spacy text tid uid s :
  generated_nodes (generate_graph_from_text spacy text tid uid s).1 =
  merged node_id (generated_nodes s)
    (make_new_nodes (extract_entities_and_relationships spacy text).1 tid uid).
Proof. reflexivity. Qed.

Lemma generate_edges spacy text tid uid s :
  generated_edges (generate_graph_from_text spacy text tid uid s).1 =
  merged edge_id (generated_edges s)
    (make_new_edges (extract_entities_and_relationships spacy text).2
       (make_new_nodes (extract_entities_and_relationships spacy text).1 tid uid) tid uid).
Proof. reflexivity. Qed.

Lemma generate_deleted spacy text tid uid s :
  deleted_sample_nodes (generate_graph_from_text spacy text tid uid s).1 =
  deleted_sample_nodes s.
Proof. reflexivity. Qed.

Lemma delete_nodes nid s :
  generated_nodes (delete_node nid s).1 =
  filter (fun n => node_id n ≠ nid) (generated_nodes s).
Proof. unfold delete_node. cbv zeta. cbn [fst]. by rewrite load_save. Qed.

Lemma delete_edges nid s :
  generated_edges (delete_node nid s).1 =
  filter (fun e => edge_source e ≠ nid ∧ edge_target e ≠ nid) (generated_edges s).
Proof. unfold delete_node. cbv zeta. cbn [fst]. by rewrite load_save. Qed.

Lemma delete_deleted nid s :
  deleted_sample_nodes (delete_node nid s).1 =
  if bool_decide (nid ∈ ids_of node_id sample_nodes)
  then deleted_sample_nodes s ∪ {[ nid ]} else deleted_sample_nodes s.
Proof. unfold delete_node. cbv zeta. cbn [fst]. by rewrite load_save. Qed.

Lemma clear_nodes uid s : generated_nodes (clear_all_graph_data uid s).1 = [].
Proof. unfold clear_all_graph_data. cbv zeta. cbn [fst]. by rewrite load_save. Qed.

Lemma clear_edges uid s : generated_edges (clear_all_graph_data uid s).1 = [].
Proof. unfold clear_all_graph_data. cbv zeta. cbn [fst]. by rewrite load_save. Qed.


(** *** Linking: every new edge joins two new nodes *)

Lemma dict_set_elem k v d kv : kv ∈ dict_set k v d -> kv = (k, v) ∨ kv ∈ d.
Proof.
  induction d as [|[k' v'] d IH]; simpl.
  - intros H. apply list_elem_of_singleton in H. by left.
  - destruct (String.eqb k' k).
    + intros H. apply elem_of_cons in H as [H|H]; [by left|right; by right].
    + intros H. apply elem_of_cons in H as [H|H]; [right; rewrite H; left|].
      apply IH in H as [H|H]; [by left|right; by right].
Qed.

Lemma build_name_index_values new_nodes kv :
  kv ∈ build_name_index new_nodes -> kv.2 ∈ (node_id <$> new_nodes).
Proof.
  unfold build_name_index. revert kv.
  apply (fold_left_inv (fun d => forall kv, kv ∈ d -> kv.2 ∈ (node_id <$> new_nodes))).
  { intros kv H. by apply elem_of_nil in H. }
  intros d n Hn Hd. unfold alias_node_step.
  apply fold_left_inv.
  - intros kv H. apply dict_set_elem in H as [->|H]; [|by apply Hd].
    cbn [snd]. by apply list_elem_of_fmap_2.
  - intros d' w _ Hd' kv. unfold alias_word_step.
    destruct ((2 <? String.length w) && negb (dict_has w d')); [|apply Hd'].
    intros H. apply dict_set_elem in H as [->|H]; [|by apply Hd'].
    cbn [snd]. by apply list_elem_of_fmap_2.
Qed.

Lemma best_match_value text d i :
  best_match text d = Some i -> i ∈ (snd <$> d).
Proof.
  unfold best_match. revert i.
  apply (fold_left_inv (fun st => forall i, st.1 = Some i -> i ∈ (snd <$> d))).
  { intros i H. discriminate. }
  intros st [k v] Hkv Hst i. unfold match_step.
  destruct (contains k text || contains text k); [|apply Hst].
  match goal with |- context [negb ?c] => destruct c end; simpl; [apply Hst|].
  intros [= <-]. by apply (list_elem_of_fmap_2 snd _ (k, v)).
Qed.

Lemma new_edges_linked rels new_nodes tid uid e :
  e ∈ make_new_edges rels new_nodes tid uid ->
  edge_source e ∈ (node_id <$> new_nodes) ∧ edge_target e ∈ (node_id <$> new_nodes).
Proof.
  unfold make_new_edges. revert e.
  apply (fold_left_inv (fun acc => forall e, e ∈ acc ->
           edge_source e ∈ (node_id <$> new_nodes)
           ∧ edge_target e ∈ (node_id <$> new_nodes))).
  { intros e H. by apply elem_of_nil in H. }
  intros acc [i rel] _ Hacc e. unfold new_edge_step.
  destruct (best_match (lower (pr_source rel)) (build_name_index new_nodes)) as [sid|] eqn:Hs;
    [|apply Hacc].
  destruct (best_match (lower (pr_target rel)) (build_name_index new_nodes)) as [tgt|] eqn:Ht;
    [|apply Hacc].
  destruct (falsy (Some sid) || falsy (Some tgt)); [apply Hacc|].
  intros H. apply elem_of_app in H as [H|H]; [by apply Hacc|].
  apply list_elem_of_singleton in H. subst e. simpl.
  apply best_match_value, list_elem_of_fmap in Hs as (kv & -> & Hkv).
  apply best_match_value, list_elem_of_fmap in Ht as (kv' & -> & Hkv').
  split; by apply build_name_index_values.
Qed.

(** *** The invariant of the generated graph *)

Lemma closed_empty s : generated_edges s = [] -> closed s.
Proof. intros H e He. rewrite H in He. by apply elem_of_nil in He. Qed.

Lemma closed_generate spacy text tid uid s :
  closed s -> closed (generate_graph_from_text spacy text tid uid s).1.
Proof.
  intros Hs e. rewrite generate_edges, generate_nodes. intros He.
  apply merged_elem in He as [He|He].
  - destruct (Hs e He) as [H1 H2].
    apply list_elem_of_fmap in H1 as (n1 & -> & Hn1).
    apply list_elem_of_fmap in H2 as (n2 & -> & Hn2).
    split; by apply merged_covers_old.
  - destruct (new_edges_linked _ _ _ _ _ He) as [H1 H2].
    apply list_elem_of_fmap in H1 as (n1 & -> & Hn1).
    apply list_elem_of_fmap in H2 as (n2 & -> & Hn2).
    split; by apply merged_covers_new.
Qed.

Lemma closed_delete nid s : closed s -> closed (delete_node nid s).1.
Proof.
  intros Hs e. rewrite delete_edges, delete_nodes. intros He.
  apply list_elem_of_filter in He as [[Hsrc Htgt] He].
  destruct (Hs e He) as [H1 H2].
  apply list_elem_of_fmap in H1 as (n1 & E1 & Hn1).
  apply list_elem_of_fmap in H2 as (n2 & E2 & Hn2).
  split.
  - rewrite E1. apply list_elem_of_fmap_2, list_elem_of_filter. split; [congruence|done].
  - rewrite E2. apply list_elem_of_fmap_2, list_elem_of_filter. split; [congruence|done].
Qed.

Lemma closed_clear uid s : closed (clear_all_graph_data uid s).1.
Proof. apply closed_empty, clear_edges. Qed.

Lemma reachable_closed spacy s : reachable spacy s -> closed s.
Proof.
  induction 1 as [s _ He| | |].
  - by apply closed_empty.
  - by apply closed_generate.
  - by apply closed_delete.
  - apply closed_clear.
Qed.

(** Every seed edge joins two seed nodes. *)
Lemma sample_edges_closed :
  Forall (fun e => edge_source e ∈ (node_id <$> sample_nodes)
                   ∧ edge_target e ∈ (node_id <$> sample_nodes)) sample_edges.
Proof. apply (bool_decide_unpack _). vm_compute. exact I. Qed.

Lemma sample_node_ids_NoDup : NoDup (node_id <$> sample_nodes).
Proof. apply (bool_decide_unpack _). vm_compute. exact I. Qed.

Lemma closed_no_dangling s : closed s -> no_dangling (get_combined_graph_data s).
Proof.
  intros Hs e He. unfold get_combined_graph_data in *. cbn [nodes edges] in *.
  cbn [_get_sample_graph_data nodes edges] in *.
  apply elem_of_app in He as [He|He].
  - apply list_elem_of_filter in He as [[Hsrc Htgt] He].
    pose proof (proj1 (Forall_forall _ _) sample_edges_closed e He) as [H1 H2].
    apply list_elem_of_fmap in H1 as (n1 & E1 & Hn1).
    apply list_elem_of_fmap in H2 as (n2 & E2 & Hn2).
    split; [exists n1|exists n2]; (split; [|done]); apply elem_of_app; left;
      apply list_elem_of_filter; (split; [congruence|done]).
  - destruct (Hs e He) as [H1 H2].
    apply list_elem_of_fmap in H1 as (n1 & E1 & Hn1).
    apply list_elem_of_fmap in H2 as (n2 & E2 & Hn2).
    split; [exists n1|exists n2]; (split; [|done]); apply elem_of_app; by right.
Qed.

(** *** The claims on the store *)

(** C2: in every state reached from an empty generated graph by calls of
    [generate_graph_from_text], [delete_node] and [clear_all_graph_data],
    every edge of [get_combined_graph_data] has its source and its target
    among the ids of the nodes of the same result. *)
Theorem reachable_no_dangling
    (spacy : option (string -> list entity * list relationship)) (s : service) :
  reachable spacy s -> no_dangling (get_combined_graph_data s).
Proof. intros H. by apply closed_no_dangling, (reachable_closed spacy). Qed.

Lemma reachable_no_dangling_witness :
  reachable None
    (delete_node "extracted_0"
       (generate_graph_from_text None text_elon_musk None None init_service).1).1
  ∧ no_dangling
      (get_combined_graph_data
         (delete_node "extracted_0"
            (generate_graph_from_text None text_elon_musk None None init_service).1).1).
Proof.
  assert (H : reachable None
    (delete_node "extracted_0"
       (generate_graph_from_text None text_elon_musk None None init_service).1).1).
  { apply reach_delete, reach_generate, reach_empty; reflexivity. }
  split; [exact H|].
  exact (reachable_no_dangling None _ H).
Defined.

(** C3: a second call of [generate_graph_from_text] with the same text
    and the same [transcript_id] leaves [generated_nodes] and
    [generated_edges] as the first call left them; in particular their
    lengths do not change. *)
Theorem generate_twice_same_counts
    (spacy : option (string -> list entity * list relationship))
    (text : string) (transcript_id : option Z) (user_id : option string) (s : service) :
  let s1 := (generate_graph_from_text spacy text transcript_id user_id s).1 in
  let s2 := (generate_graph_from_text spacy text transcript_id user_id s1).1 in
  length (generated_nodes s2) = length (generated_nodes s1)
  ∧ length (generated_edges s2) = length (generated_edges s1)
  ∧ generated_nodes s2 = generated_nodes s1
  ∧ generated_edges s2 = generated_edges s1.
Proof.
  intros s1 s2.
  assert (Hn : generated_nodes s2 = generated_nodes s1).
  { unfold s2, s1. rewrite !generate_nodes. apply merged_twice. }
  assert (He : generated_edges s2 = generated_edges s1).
  { unfold s2, s1. rewrite !generate_edges. apply merged_twice. }
  rewrite Hn, He. done.
Qed.

(** C4 (Scenario E), the code at the failing input: two imports without
    [transcript_id] of "Tim Cook is the CEO of Apple Inc." and then of
    "Elon Musk founded SpaceX.". The first contributes one node, the
    second extracts two entities, and the store ends with two nodes: the
    node of "Elon Musk" gets the id "extracted_0" the first import used
    and is not inserted. *)
Theorem scenario_E_second_import_dropped :
  let s1 := (generate_graph_from_text None text_tim_cook None None init_service).1 in
  let r2 := generate_graph_from_text None text_elon_musk None None s1 in
  node_shape <$> generated_nodes s1 = [("extracted_0", "Tim Cook", "PERSON")]
  ∧ node_shape <$>
      make_new_nodes (extract_entities_and_relationships None text_elon_musk).1 None None =
      [("extracted_0", "Elon Musk", "PERSON"); ("extracted_1", "SpaceX", "ORGANIZATION")]
  ∧ gr_entities_created r2.2 = 2
  ∧ node_shape <$> generated_nodes r2.1 =
      [("extracted_0", "Tim Cook", "PERSON"); ("extracted_1", "SpaceX", "ORGANIZATION")]
  ∧ length (generated_nodes r2.1) = 2.
Proof. vm_compute. split_and!; reflexivity. Qed.


(** C5 (Scenario C), counterexample: on a fresh service the combined
    view contains the seed edge [e1] from "tim_cook" to "apple", and
    [delete_node("apple")] reports one node and two edges removed, since
    the seed edge [e2] from "apple" to "cupertino" is counted as well. *)
Lemma delete_apple_counts_two_edges :
  seed_edge_e1 ∈ edges (get_combined_graph_data init_service)
  ∧ nodes_removed (delete_node "apple" init_service).2 = 1
  ∧ edges_removed (delete_node "apple" init_service).2 = 2
  ∧ edges_removed (delete_node "apple" init_service).2 ≠ 1.
Proof.
  split_and!; [|vm_compute; reflexivity..|vm_compute; discriminate].
  unfold get_combined_graph_data. cbn [edges]. apply elem_of_app. left.
  apply list_elem_of_filter. split; [split; apply not_elem_of_empty|left].
Qed.

Lemma sample_edges_touching_apple : length (filter (touches "apple") sample_edges) = 2.
Proof. vm_compute. reflexivity. Qed.

Lemma apple_is_sample : bool_decide ("apple" ∈ ids_of node_id sample_nodes) = true.
Proof. vm_compute. reflexivity. Qed.

(** C5 (Scenario C), amended: on a store whose combined view contains
    the seed edge [e1] and whose generated data has no node with id
    "apple" and no edge that touches "apple", [delete_node("apple")]
    returns [nodes_removed = 1] and [edges_removed = 2] (the seed edges
    [e1] and [e2]), and afterwards the combined view has no node with id
    "apple" and no edge that touches it; [e1] is gone. *)
Theorem delete_apple_removes_seed_edges (s : service) :
  seed_edge_e1 ∈ edges (get_combined_graph_data s) ->
  (forall n, n ∈ generated_nodes s -> node_id n ≠ "apple") ->
  (forall e, e ∈ generated_edges s -> ¬ touches "apple" e) ->
  let r := delete_node "apple" s in
  nodes_removed r.2 = 1
  ∧ edges_removed r.2 = 2
  ∧ (forall n, n ∈ nodes (get_combined_graph_data r.1) -> node_id n ≠ "apple")
  ∧ (forall e, e ∈ edges (get_combined_graph_data r.1) -> ¬ touches "apple" e)
  ∧ seed_edge_e1 ∉ edges (get_combined_graph_data r.1).
Proof.
  intros _ Hn He r.
  assert (Hfn : filter (fun n => node_id n ≠ "apple") (generated_nodes s) = generated_nodes s).
  { apply filter_all. exact Hn. }
  assert (Hfe : filter (fun e => edge_source e ≠ "apple" ∧ edge_target e ≠ "apple")
                  (generated_edges s) = generated_edges s).
  { apply filter_all. intros e H. specialize (He e H). unfold touches in He. tauto. }
  assert (Hd : "apple" ∈ deleted_sample_nodes r.1).
  { unfold r. rewrite delete_deleted, apple_is_sample.
    apply elem_of_union. right. by apply elem_of_singleton. }
  assert (Hedges : forall e, e ∈ edges (get_combined_graph_data r.1) -> ¬ touches "apple" e).
  { intros e H. unfold get_combined_graph_data in H. cbn [edges] in H.
    apply elem_of_app in H as [H|H].
    - apply list_elem_of_filter in H as [[H1 H2] _].
      intros [E|E]; [apply H1|apply H2]; rewrite E; exact Hd.
    - unfold r in H. rewrite delete_edges, Hfe in H. by apply He. }
  split_and!.
  - unfold r, delete_node. cbv zeta. cbn [snd nodes_removed].
    change (nodes _get_sample_graph_data) with sample_nodes.
    rewrite apple_is_sample, Hfn, Nat.sub_diag. reflexivity.
  - unfold r, delete_node. cbv zeta. cbn [snd edges_removed].
    change (nodes _get_sample_graph_data) with sample_nodes.
    change (edges _get_sample_graph_data) with sample_edges.
    rewrite apple_is_sample, Hfe, Nat.sub_diag.
    by rewrite sample_edges_touching_apple.
  - intros n H. unfold get_combined_graph_data in H. cbn [nodes] in H.
    apply elem_of_app in H as [H|H].
    + apply list_elem_of_filter in H as [H _]. intros E. apply H. by rewrite E.
    + unfold r in H. rewrite delete_nodes, Hfn in H. by apply Hn.
  - exact Hedges.
  - intros H. apply (Hedges _ H). right. reflexivity.
Qed.

Lemma delete_apple_removes_seed_edges_witness :
  seed_edge_e1 ∈ edges (get_combined_graph_data init_service)
  ∧ nodes_removed (delete_node "apple" init_service).2 = 1
  ∧ edges_removed (delete_node "apple" init_service).2 = 2
  ∧ seed_edge_e1 ∉ edges (get_combined_graph_data (delete_node "apple" init_service).1).
Proof.
  assert (H1 : seed_edge_e1 ∈ edges (get_combined_graph_data init_service)).
  { unfold get_combined_graph_data. cbn [edges]. apply elem_of_app. left.
    apply list_elem_of_filter. split; [split; apply not_elem_of_empty|left]. }
  assert (H2 : forall n, n ∈ generated_nodes init_service -> node_id n ≠ "apple").
  { intros n H. simpl in H. by apply elem_of_nil in H. }
  assert (H3 : forall e, e ∈ generated_edges init_service -> ¬ touches "apple" e).
  { intros e H. simpl in H. by apply elem_of_nil in H. }
  destruct (delete_apple_removes_seed_edges init_service H1 H2 H3) as (A & B & _ & _ & C).
  exact (conj H1 (conj A (conj B C))).
Defined.



(** C10: when the id of a seed node is in [deleted_sample_nodes], the
    node list [generate_graph_from_text] returns still contains that
    seed node, because the response is the whole seed graph followed by
    the generated data, deduplicated by id; the seed part of
    [get_combined_graph_data] leaves the node out. *)
Theorem generate_response_keeps_tombstoned
    (spacy : option (string -> list entity * list relationship))
    (text : string) (transcript_id : option Z) (user_id : option string)
    (s : service) (n : node) :
  n ∈ sample_nodes ->
  node_id n ∈ deleted_sample_nodes s ->
  let r := generate_graph_from_text spacy text transcript_id user_id s in
  n ∈ gr_nodes r.2
  ∧ gr_nodes r.2 = _deduplicate_list_by_id node_id (sample_nodes ++ generated_nodes r.1)
  ∧ gr_edges r.2 = _deduplicate_list_by_id edge_id (sample_edges ++ generated_edges r.1)
  ∧ nodes (get_combined_graph_data r.1) =
      filter (fun m => node_id m ∉ deleted_sample_nodes r.1) sample_nodes
      ++ generated_nodes r.1
  ∧ n ∉ filter (fun m => node_id m ∉ deleted_sample_nodes r.1) sample_nodes.
Proof.
  intros Hn Hd r. split_and!; [|reflexivity..|].
  - change (gr_nodes r.2)
      with (_deduplicate_list_by_id node_id (sample_nodes ++ generated_nodes r.1)).
    destruct (list_elem_of_split _ _ Hn) as (l1 & l2 & Hsplit).
    pose proof sample_node_ids_NoDup as Hnd.
    rewrite Hsplit in Hnd |- *. rewrite <- app_assoc, <- app_comm_cons.
    apply dedup_first. intros x Hx E.
    rewrite fmap_app, fmap_cons in Hnd. apply NoDup_app in Hnd as (_ & Hnd & _).
    apply (Hnd (node_id x)); [by apply list_elem_of_fmap_2|]. rewrite E. left.
  - intros H. apply list_elem_of_filter in H as [H _]. apply H.
    unfold r. by rewrite generate_deleted.
Qed.

Lemma generate_response_keeps_tombstoned_witness :
  seed_apple ∈ sample_nodes
  ∧ node_id seed_apple ∈ deleted_sample_nodes apple_deleted
  ∧ seed_apple ∈
      gr_nodes (generate_graph_from_text None text_elon_musk None None apple_deleted).2.
Proof.
  assert (H1 : seed_apple ∈ sample_nodes) by (right; left).
  assert (H2 : node_id seed_apple ∈ deleted_sample_nodes apple_deleted).
  { apply (bool_decide_unpack _). vm_compute. exact I. }
  destruct (generate_response_keeps_tombstoned None text_elon_musk None None
              apple_deleted seed_apple H1 H2) as (A & _).
  exact (conj H1 (conj H2 A)).
Defined.

End StoreProps.

(** *** More on the extractor *)

Module ExtractionMore.
Import PyStr Re RelationshipManager ExtractionSpec ListFacts ExtractionProps.
Import FactExtraction MoreSpec.
Set Warnings "-inexact-float".

(** **** Strings *)

Lemma append_cons (x : ascii) (a b : string) :
  String.append (String x a) b = String x (String.append a b).
Proof. reflexivity. Qed.

Lemma append_assoc (a b c : string) :
  String.append (String.append a b) c = String.append a (String.append b c).
Proof. induction a as [|x a IH]; [done|]. rewrite !append_cons. by rewrite IH. Qed.

Lemma append_length (a b : string) :
  String.length (String.append a b) = String.length a + String.length b.
Proof. induction a as [|x a IH]; [done|]. rewrite append_cons. simpl. by rewrite IH. Qed.

Lemma take_drop n s : String.append (take n s) (drop n s) = s.
Proof.
  revert s. induction n as [|n IH]; intros [|c s]; simpl; try done.
  rewrite append_cons. by rewrite IH.
Qed.

Lemma take_length n s : String.length (take n s) <= String.length s.
Proof.
  revert s. induction n as [|n IH]; intros [|c s]; simpl; try lia.
  specialize (IH s). lia.
Qed.

Lemma drop_length n s : String.length (drop n s) <= String.length s.
Proof.
  revert s. induction n as [|n IH]; intros [|c s]; simpl; try lia.
  specialize (IH s). lia.
Qed.

Lemma lstrip_length s : String.length (lstrip s) <= String.length s.
Proof.
  induction s as [|c s IH]; simpl; [done|]. destruct (isspace_c c); simpl; lia.
Qed.

Lemma rstrip_length s : String.length (rstrip s) <= String.length s.
Proof.
  induction s as [|c s IH]; simpl; [done|].
  destruct (rstrip s); [destruct (isspace_c c)|]; simpl in *; lia.
Qed.

Lemma strip_length s : String.length (strip s) <= String.length s.
Proof.
  unfold strip. pose proof (rstrip_length (lstrip s)). pose proof (lstrip_length s). lia.
Qed.

Lemma lstrip_head s :
  lstrip s = "" ∨ ∃ c t, lstrip s = String c t ∧ isspace_c c = false.
Proof.
  induction s as [|c s IH]; simpl; [by left|].
  destruct (isspace_c c) eqn:E; [done|]. right. eauto.
Qed.

Lemma rstrip_idem s : rstrip (rstrip s) = rstrip s.
Proof.
  induction s as [|c s IH]; simpl; [done|].
  destruct (rstrip s) as [|d t] eqn:E.
  - destruct (isspace_c c) eqn:Ec; simpl; [done|]. by rewrite Ec.
  - change (rstrip (String c (String d t))) with
      (match rstrip (String d t) with
       | "" => if isspace_c c then "" else String c ""
       | u => String c u
       end).
    by rewrite IH.
Qed.

Lemma rstrip_keeps_head c t :
  isspace_c c = false -> ∃ u, rstrip (String c t) = String c u.
Proof.
  intros Hc. simpl. destruct (rstrip t); [rewrite Hc|]; eauto.
Qed.

(** [strip] returns a string with no whitespace at either end. *)
Lemma strip_stripped s : stripped (strip s).
Proof.
  unfold stripped, strip.
  destruct (lstrip_head s) as [->|(c & t & -> & Hc)]; [done|].
  destruct (rstrip_keeps_head c t Hc) as [u Hu]. rewrite Hu.
  cbn [lstrip]. rewrite Hc. rewrite <- Hu. apply rstrip_idem.
Qed.

(** **** Matches lie in the subject *)

Lemma finditer_go_placed ic r m s : forall prev pos skip,
  m ∈ finditer_go ic r prev s pos skip ->
  ∃ pre post, s = String.append pre (String.append (m_group m) post)
              ∧ pos + String.length pre = m_start m.
Proof.
  induction s as [|c s IH]; intros prev pos skip Hm.
  - destruct skip; simpl in Hm; [|by apply elem_of_nil in Hm].
    destruct (match_at ic r prev "") as [[len caps]|]; [|by apply elem_of_nil in Hm].
    apply list_elem_of_singleton in Hm. subst m. exists "", "". simpl.
    split; [by destruct len|lia].
  - assert (Hrec : forall prev' skip', m ∈ finditer_go ic r prev' s (S pos) skip' ->
              ∃ pre post, String c s = String.append pre (String.append (m_group m) post)
                          ∧ pos + String.length pre = m_start m).
    { intros ?? H. destruct (IH _ _ _ H) as (pre & post & -> & Hl).
      exists (String c pre), post. rewrite append_cons. simpl. split; [done|lia]. }
    destruct skip; simpl in Hm; [|by eapply Hrec].
    destruct (match_at ic r prev (String c s)) as [[len caps]|]; [|by eapply Hrec].
    apply elem_of_cons in Hm as [->|Hm]; [|by eapply Hrec].
    exists "", (drop len (String c s)). cbn [m_group m_start String.length].
    split; [|lia]. change (String.append "" ?x) with x.
    by rewrite take_drop.
Qed.

Lemma finditer_placed ic r m s :
  m ∈ finditer ic r s -> occurs_at (m_group m) (m_start m) s.
Proof.
  intros H. destruct (finditer_go_placed _ _ _ _ _ _ _ H) as (pre & post & ? & ?).
  exists pre, post. split; [done|lia].
Qed.

(** **** Candidates *)

Lemma candidates_placed text e :
  e ∈ candidates text ->
  ∃ m p, m ∈ finditer true p text
         ∧ e_name e = strip (m_group m) ∧ e_position e = m_start m.
Proof.
  unfold candidates. revert e.
  apply (fold_left_inv (fun st => forall e, e ∈ st.1 ->
           ∃ m p, m ∈ finditer true p text
                  ∧ e_name e = strip (m_group m) ∧ e_position e = m_start m)).
  { intros e H. by apply elem_of_nil in H. }
  intros st tp _ Hst. unfold add_type.
  apply fold_left_inv; [exact Hst|].
  intros st' p _ Hst'. unfold add_pattern.
  apply (fold_left_inv (fun st => forall e, e ∈ st.1 ->
           ∃ m p, m ∈ finditer true p text
                  ∧ e_name e = strip (m_group m) ∧ e_position e = m_start m));
    [exact Hst'|].
  intros [ents k] m Hm Hents e. unfold add_match.
  destruct (keep_candidate (strip (m_group m)) tp.1); [|apply Hents].
  simpl. intros He. apply elem_of_app in He as [He|He]; [by apply Hents|].
  apply list_elem_of_singleton in He. subst e. simpl. eauto.
Qed.

Lemma candidates_numbered text :
  e_id <$> candidates text = seq 0 (length (candidates text)).
Proof.
  unfold candidates.
  assert (H : e_id <$> (fold_left (add_type text) entity_patterns ([], 0)).1
                = seq 0 (fold_left (add_type text) entity_patterns ([], 0)).2
              ∧ length (fold_left (add_type text) entity_patterns ([], 0)).1
                = (fold_left (add_type text) entity_patterns ([], 0)).2).
  { apply (fold_left_inv (fun st => e_id <$> st.1 = seq 0 st.2 ∧ length st.1 = st.2));
      [done|].
    intros st tp _ Hst. unfold add_type.
    apply fold_left_inv; [exact Hst|].
    intros st' p _ Hst'. unfold add_pattern.
    apply (fold_left_inv (fun st => e_id <$> st.1 = seq 0 st.2 ∧ length st.1 = st.2));
      [exact Hst'|].
    intros [ents k] m _ [Hn Hl]. unfold add_match.
    destruct (keep_candidate (strip (m_group m)) tp.1); [|done].
    cbn [fst snd] in *. split.
    - rewrite fmap_app, Hn, seq_S. reflexivity.
    - rewrite length_app. simpl. lia. }
  destruct H as [Hn Hl]. by rewrite Hl.
Qed.

Lemma seq_sorted j n : StronglySorted lt (seq j n).
Proof.
  revert j. induction n as [|n IH]; intros j; simpl; constructor; [apply IH|].
  apply Forall_forall. intros x Hx. apply elem_of_seq in Hx. lia.
Qed.

Lemma sublist_sorted (l k : list nat) :
  l `sublist_of` k -> StronglySorted lt k -> StronglySorted lt l.
Proof.
  induction 1 as [|x l k Hs IH|x l k Hs IH]; intros Hk; [done| |].
  - apply StronglySorted_inv in Hk as [Hk Hx]. constructor; [by apply IH|].
    apply Forall_forall. intros y Hy. eapply Forall_forall in Hx; [exact Hx|].
    by eapply elem_of_sublist.
  - apply StronglySorted_inv in Hk as [Hk _]. by apply IH.
Qed.


Lemma extract_entities_candidates text e :
  e ∈ extract_entities text -> e ∈ candidates text.
Proof.
  unfold extract_entities. rewrite dedup_pass_spec. intros H.
  eapply elem_of_sublist; [exact H|apply pass_from_sublist].
Qed.

(** **** Entities *)

(** X1: every entity [extract_entities] returns is located in the text:
    at offset [position] the text holds a span whose stripped form is
    the [name], the name has no whitespace at either end and it ends
    inside the text. *)
Theorem extract_entities_placed (text : string) :
  Forall (fun e =>
            (∃ raw, occurs_at raw (e_position e) text ∧ e_name e = strip raw)
            ∧ stripped (e_name e)
            ∧ e_position e + String.length (e_name e) <= String.length text)
         (extract_entities text).
Proof.
  apply Forall_forall. intros e He.
  apply extract_entities_candidates, candidates_placed in He as (m & p & Hm & Hn & Hp).
  pose proof (finditer_placed _ _ _ _ Hm) as Hocc. rewrite <- Hp in Hocc.
  split_and!.
  - exists (m_group m). done.
  - rewrite Hn. apply strip_stripped.
  - destruct Hocc as (pre & post & -> & Hl).
    rewrite !append_length, Hn. pose proof (strip_length (m_group m)). lia.
Qed.

(** X2: every returned entity passed the quality filter: its name has
    more than two characters and at most four words, is not made of
    digits, its lower-case form is not a stop word, its type is one of
    the four tags, and its confidence is the one [_calculate_confidence]
    gives for its name and type. *)
Theorem extract_entities_filtered (text : string) :
  Forall (fun e =>
            2 < String.length (e_name e)
            ∧ length (split (e_name e)) <= 4
            ∧ isdigit (e_name e) = false
            ∧ (lower (e_name e) ∉ stop_words)
            ∧ e_type e ∈ ["PERSON"; "ORGANIZATION"; "LOCATION"; "TECHNOLOGY"]
            ∧ e_confidence e = _calculate_confidence (e_name e) (e_type e))
         (extract_entities text).
Proof.
  apply Forall_forall. intros e He.
  apply extract_entities_candidates, candidates_inv in He as (Hty & Hk & Hc & _).
  unfold keep_candidate in Hk.
  repeat (apply andb_true_iff in Hk as [Hk ?]).
  split_and!.
  - by apply Nat.ltb_lt.
  - by apply Nat.leb_le.
  - by apply negb_true_iff.
  - match goal with H : negb (bool_decide _) = true |- _ =>
      apply negb_true_iff, bool_decide_eq_false in H; exact H end.
  - exact Hty.
  - exact Hc.
Qed.

(** X3: the [id]s of the returned entities are strictly increasing and
    each is the rank of the entity among the candidates; they are not
    renumbered after the deduplication, so they can skip values. *)
Theorem extract_entities_ids_increasing (text : string) :
  StronglySorted lt (e_id <$> extract_entities text)
  ∧ Forall (fun e => e_id e < length (candidates text)) (extract_entities text)
  ∧ e_id <$> extract_entities "i like python and the api of docker" = [1; 2].
Proof.
  split_and!.
  - apply (sublist_sorted _ (e_id <$> candidates text)).
    + apply fmap_sublist. unfold extract_entities. rewrite dedup_pass_spec.
      apply pass_from_sublist.
    + rewrite candidates_numbered. apply seq_sorted.
  - apply Forall_forall. intros e He. apply extract_entities_candidates in He.
    apply (list_elem_of_fmap_2 e_id) in He. rewrite candidates_numbered in He.
    apply elem_of_seq in He. lia.
  - vm_compute. reflexivity.
Qed.

(** X4: [_calculate_confidence] returns a value between 0.1 and 1.0
    for every text and every type. *)
Theorem calculate_confidence_bounds (text entity_type : string) :
  (0.1 <=? _calculate_confidence text entity_type)%float = true
  ∧ (_calculate_confidence text entity_type <=? 1.0)%float = true.
Proof.
  unfold _calculate_confidence.
  destruct (any_upper text);
  destruct (String.eqb entity_type "PERSON" && (length (split text) =? 2));
  destruct (String.eqb entity_type "ORGANIZATION"
            && any_word_in ["inc"; "corp"; "ltd"; "company"] text);
  destruct (String.eqb entity_type "TECHNOLOGY" && (4 <=? String.length text));
  destruct (String.length text <? 3);
  destruct (30 <? String.length text);
  vm_compute; split; reflexivity.
Qed.

(** **** Relationships *)

(** X5: every relationship [extract_relationships] returns has weight
    1.0, confidence 0.7 and one of the ten relationship types, its
    source and its target have no whitespace at either end, and its
    position is an offset of the text. *)
Theorem extract_relationships_shape (text : string) :
  Forall (fun r =>
            r_weight r = 1.0%float
            ∧ r_confidence r = 0.7%float
            ∧ r_type r ∈ (snd <$> relationship_patterns)
            ∧ stripped (r_source r)
            ∧ stripped (r_target r)
            ∧ r_position r <= String.length text)
         (extract_relationships text).
Proof.
  unfold extract_relationships.
  apply (fold_left_inv (fun acc => Forall _ acc)); [constructor|].
  intros acc pr Hpr Hacc.
  apply (fold_left_inv (fun acc => Forall _ acc)); [exact Hacc|].
  intros acc' m Hm Hacc'. unfold add_rel_match.
  destruct (m_groups m) as [|g0 [|g1 gs]]; [done..|].
  apply Forall_app. split; [exact Hacc'|]. apply Forall_singleton. cbn.
  split_and!; [done|done| | | |].
  - exact (list_elem_of_fmap_2 snd _ _ Hpr).
  - apply strip_stripped.
  - apply strip_stripped.
  - destruct (finditer_placed _ _ _ _ Hm) as (pre & post & -> & <-).
    rewrite append_length. lia.
Qed.


(** **** Facts *)

Lemma split_pieces_length ms s : forall last p,
  p ∈ split_pieces ms s last -> String.length p <= String.length s.
Proof.
  induction ms as [|m ms IH]; intros last p Hp; simpl in Hp.
  - apply list_elem_of_singleton in Hp. subst p. apply drop_length.
  - apply elem_of_cons in Hp as [->|Hp]; [|by eapply IH].
    pose proof (take_length (m_start m - last) (drop last s)).
    pose proof (drop_length last s). lia.
Qed.

(** X6: [extract_facts] returns at most 20 facts; every fact has more
    than 10 characters, has no whitespace at either end and matches one
    of the factual indicators. *)
Theorem extract_facts_sound (text : string) :
  length (extract_facts text) <= 20
  ∧ Forall (fun fact =>
              10 < String.length fact
              ∧ stripped fact
              ∧ _is_factual_sentence fact = true)
           (extract_facts text).
Proof.
  unfold extract_facts. cbv zeta. split.
  - rewrite length_take. lia.
  - apply Forall_forall. intros fact Hf. apply subseteq_take in Hf. revert fact Hf.
    apply (fold_left_inv (fun acc => forall fact, fact ∈ acc ->
             10 < String.length fact ∧ stripped fact ∧ _is_factual_sentence fact = true)).
    { intros fact H. by apply elem_of_nil in H. }
    intros acc sentence _ Hacc fact. unfold fact_step.
    destruct ((10 <? String.length (strip sentence))
              && _is_factual_sentence (strip sentence)) eqn:E; [|apply Hacc].
    apply andb_true_iff in E as [E1 E2]. apply Nat.ltb_lt in E1.
    intros H. apply elem_of_app in H as [H|H]; [by apply Hacc|].
    apply list_elem_of_singleton in H. subst fact.
    split_and!; [done|apply strip_stripped|done].
Qed.

(** X7: a text of at most 10 characters yields no fact, whatever it
    says. *)
Theorem extract_facts_short_text (text : string) :
  String.length text <= 10 -> extract_facts text = [].
Proof.
  intros Hlen. unfold extract_facts. cbv zeta.
  assert (H : fold_left fact_step (re_split false sentence_end text) [] = []);
    [|by rewrite H].
  apply (fold_left_inv (fun acc => acc = [])); [done|].
  intros acc sentence Hs ->. unfold fact_step.
  apply split_pieces_length in Hs. pose proof (strip_length sentence).
  replace (10 <? String.length (strip sentence)) with false; [done|].
  symmetry. apply Nat.ltb_ge. lia.
Qed.

Lemma extract_facts_short_text_witness :
  String.length "It is." <= 10 ∧ extract_facts "It is." = [].
Proof.
  assert (H : String.length "It is." <= 10) by (simpl; lia).
  exact (conj H (extract_facts_short_text "It is." H)).
Defined.

(** **** Verb normalisation *)

Lemma upper_c_not_lower c : islower_c (upper_c c) = false.
Proof. destruct c as [[] [] [] [] [] [] [] []]; reflexivity. Qed.

Lemma upper_no_lower s : sany islower_c (upper s) = false.
Proof.
  unfold upper. induction s as [|c s IH]; simpl; [done|].
  by rewrite upper_c_not_lower, IH.
Qed.

Lemma relationship_mapping_upper k v :
  relationship_mapping !! k = Some v -> sany islower_c v = false.
Proof.
  unfold relationship_mapping. intros H. apply elem_of_list_to_map_2 in H.
  change (sany islower_c (k, v).2 = false). revert H. generalize (k, v).
  apply Forall_forall.
  repeat (apply Forall_cons; split; [reflexivity|]). apply Forall_nil_2.
Qed.

Lemma lower_c_idem c : lower_c (lower_c c) = lower_c c.
Proof. destruct c as [[] [] [] [] [] [] [] []]; reflexivity. Qed.

Lemma upper_lower_c c : upper_c (lower_c c) = upper_c c.
Proof. destruct c as [[] [] [] [] [] [] [] []]; reflexivity. Qed.

Lemma lower_upper_c c : lower_c (upper_c c) = lower_c c.
Proof. destruct c as [[] [] [] [] [] [] [] []]; reflexivity. Qed.

Lemma upper_c_idem c : upper_c (upper_c c) = upper_c c.
Proof. destruct c as [[] [] [] [] [] [] [] []]; reflexivity. Qed.

Lemma smap_smap (f g h : ascii -> ascii) s :
  (forall c, f (g c) = h c) -> smap f (smap g s) = smap h s.
Proof. intros H. induction s as [|c s IH]; simpl; [done|]. by rewrite H, IH. Qed.

(** X8: [_normalize_verb_relationship] never returns a lower-case
    letter, and its answer does not depend on the letter case of the
    verb: the lower-cased and the upper-cased verb give the answer of
    the verb itself. *)
Theorem normalize_verb_relationship_upper (verb : string) :
  sany islower_c (_normalize_verb_relationship verb) = false
  ∧ _normalize_verb_relationship (lower verb) = _normalize_verb_relationship verb
  ∧ _normalize_verb_relationship (upper verb) = _normalize_verb_relationship verb.
Proof.
  unfold _normalize_verb_relationship. cbv zeta. split_and!.
  - destruct (relationship_mapping !! lower verb) as [v|] eqn:E; simpl.
    + by eapply relationship_mapping_upper.
    + apply upper_no_lower.
  - unfold lower, upper.
    by rewrite (smap_smap _ _ _ verb lower_c_idem), (smap_smap _ _ _ verb upper_lower_c).
  - unfold lower, upper.
    by rewrite (smap_smap _ _ _ verb lower_upper_c), (smap_smap _ _ _ verb upper_c_idem).
Qed.

(** **** Merging with the spaCy results *)

Lemma fold_left_ext_eq {A B : Type} (f g : A -> B -> A) (l : list B) (a : A) :
  (forall a' x, f a' x = g a' x) -> fold_left f l a = fold_left g l a.
Proof.
  intros H. revert a. induction l as [|x l IH]; intros a; simpl; [done|].
  by rewrite H, IH.
Qed.

(** The state of the two loops of [_merge_entity_lists]: [seen_names]
    holds the lower-case names of [merged], which are pairwise distinct,
    and every merged entity is confident. *)
Lemma merge_fold_inv (f : list entity -> entity -> entity) (l : list entity) :
  (forall m e, name_key (f m e) = name_key e) ->
  (forall m e, confident (f m e) = confident e) ->
  forall st,
  (forall x, x ∈ st.2 <-> x ∈ (name_key <$> st.1)) ->
  NoDup (name_key <$> st.1) ->
  Forall (fun e => confident e = true) st.1 ->
  (forall x, x ∈ (fold_left (merge_step f) l st).2
             <-> x ∈ (name_key <$> (fold_left (merge_step f) l st).1))
  ∧ NoDup (name_key <$> (fold_left (merge_step f) l st).1)
  ∧ Forall (fun e => confident e = true) (fold_left (merge_step f) l st).1
  ∧ st.1 `prefix_of` (fold_left (merge_step f) l st).1
  ∧ (forall e, e ∈ l -> confident e = true ->
               name_key e ∈ (name_key <$> (fold_left (merge_step f) l st).1)).
Proof.
  intros Hk Hc. induction l as [|e l IH]; intros st Hs Hn Hf; cbn [fold_left].
  - split_and!; [done..|]. intros e H. by apply elem_of_nil in H.
  - pose proof (eq_refl : merge_step f st e =
        if negb (bool_decide (name_key e ∈ st.2)) && confident e
        then (st.1 ++ [f st.1 e], st.2 ∪ {[ name_key e ]}) else st) as Est.
    destruct (negb (bool_decide (name_key e ∈ st.2)) && confident e) eqn:E; rewrite Est.
    + apply andb_true_iff in E as [E1 E2].
      apply negb_true_iff, bool_decide_eq_false in E1.
      destruct (IH (st.1 ++ [f st.1 e], st.2 ∪ {[ name_key e ]})) as (A & B & C & D & F).
      * intros x. cbn [fst snd]. rewrite fmap_app, elem_of_app, elem_of_union, Hs.
        cbn. rewrite list_elem_of_singleton, elem_of_singleton, Hk. done.
      * cbn [fst]. rewrite fmap_app. apply NoDup_app. split_and!; [done| |].
        -- intros x Hx Hx'. cbn in Hx'. apply list_elem_of_singleton in Hx'.
           rewrite Hk in Hx'. subst x. by apply E1, Hs.
        -- cbn. apply NoDup_singleton.
      * cbn [fst]. apply Forall_app. split; [done|]. apply Forall_singleton.
        by rewrite Hc.
      * cbn [fst] in D. split_and!; [done..| |].
        -- etrans; [|exact D]. by apply prefix_app_r.
        -- intros x Hx Hxc. apply elem_of_cons in Hx as [->|Hx]; [|by apply F].
           destruct D as [k ->]. rewrite !fmap_app, !elem_of_app. left. right.
           cbn. apply list_elem_of_singleton. by rewrite Hk.
    + destruct (IH st Hs Hn Hf) as (A & B & C & D & F). split_and!; [done..|].
      intros x Hx Hxc. apply elem_of_cons in Hx as [->|Hx]; [|by apply F].
      destruct D as [k ->]. rewrite fmap_app, elem_of_app. left. apply Hs.
      rewrite Hxc, andb_true_r in E. apply negb_false_iff in E.
      by apply bool_decide_eq_true in E.
Qed.

Lemma merge_fold_sublist (l : list entity) : forall st,
  ∃ l', (fold_left (merge_step (fun _ e => e)) l st).1 = st.1 ++ l' ∧ l' `sublist_of` l.
Proof.
  induction l as [|e l IH]; intros st; cbn [fold_left].
  - exists []. by rewrite app_nil_r.
  - pose proof (eq_refl : merge_step (fun _ e => e) st e =
        if negb (bool_decide (name_key e ∈ st.2)) && confident e
        then (st.1 ++ [e], st.2 ∪ {[ name_key e ]}) else st) as Est.
    destruct (negb (bool_decide (name_key e ∈ st.2)) && confident e); rewrite Est.
    + destruct (IH (st.1 ++ [e], st.2 ∪ {[ name_key e ]})) as (l' & -> & Hl').
      exists (e :: l'). cbn [fst]. rewrite <- app_assoc. split; [done|].
      by apply sublist_skip.
    + destruct (IH st) as (l' & -> & Hl'). exists l'. split; [done|].
      by apply sublist_cons.
Qed.

Lemma merge_nlp_fold l st :
  fold_left merge_nlp_step l st = fold_left (merge_step (fun _ e => e)) l st.
Proof. apply fold_left_ext_eq. by intros [m sn] e. Qed.

Lemma merge_pattern_fold l st :
  fold_left merge_pattern_step l st = fold_left (merge_step renumbered) l st.
Proof. apply fold_left_ext_eq. by intros [m sn] e. Qed.

Lemma merge_pattern_ids (n0 : nat) (l : list entity) (st : list entity * gset string) :
  (forall i e, st.1 !! i = Some e -> n0 <= i -> e_id e = i) ->
  forall i e, (fold_left (merge_step renumbered) l st).1 !! i = Some e ->
              n0 <= i -> e_id e = i.
Proof.
  intros H0.
  apply (fold_left_inv (fun st : list entity * gset string =>
           forall i e, st.1 !! i = Some e -> n0 <= i -> e_id e = i)); [exact H0|].
  intros st' x _ Hst' i e. unfold merge_step.
  destruct (negb (bool_decide (name_key x ∈ st'.2)) && confident x); [|apply Hst'].
  cbn [fst]. intros Hi Hn.
  destruct (decide (i < length st'.1)) as [Hlt|Hge].
  - rewrite lookup_app_l in Hi by done. by apply Hst'.
  - rewrite lookup_app_r in Hi by lia.
    apply list_lookup_singleton_Some in Hi as [Hi <-]. simpl. lia.
Qed.

(** The entities [_merge_entity_lists] returns, with the entities it
    kept from the first list. *)
Lemma merge_entities_inv (nlp_entities pattern_entities : list entity) :
  ∃ kept,
    kept `sublist_of` nlp_entities
    ∧ kept `prefix_of` _merge_entity_lists nlp_entities pattern_entities
    ∧ NoDup (name_key <$> _merge_entity_lists nlp_entities pattern_entities)
    ∧ Forall (fun e => confident e = true)
             (_merge_entity_lists nlp_entities pattern_entities)
    ∧ (forall i e, _merge_entity_lists nlp_entities pattern_entities !! i = Some e ->
                   length kept <= i -> e_id e = i)
    ∧ (forall e, e ∈ nlp_entities ++ pattern_entities -> confident e = true ->
                 name_key e ∈
                   (name_key <$> _merge_entity_lists nlp_entities pattern_entities)).
Proof.
  unfold _merge_entity_lists. rewrite merge_nlp_fold, merge_pattern_fold.
  set (st1 := fold_left (merge_step (fun _ e => e)) nlp_entities ([], ∅)).
  destruct (merge_fold_inv (fun _ e => e) nlp_entities (fun _ _ => eq_refl)
              (fun _ _ => eq_refl) ([], ∅)) as (A1 & B1 & C1 & _ & F1).
  { intros x. cbn. rewrite elem_of_nil. set_solver. }
  { constructor. }
  { constructor. }
  fold st1 in A1, B1, C1, F1.
  destruct (merge_fold_inv renumbered pattern_entities (fun _ _ => eq_refl)
              (fun _ _ => eq_refl) st1 A1 B1 C1) as (A2 & B2 & C2 & D2 & F2).
  destruct (merge_fold_sublist nlp_entities ([], ∅)) as (l' & Hl' & Hsub).
  fold st1 in Hl'. cbn in Hl'.
  exists st1.1. split_and!; [by rewrite Hl'|done..| |].
  - apply merge_pattern_ids. intros i e Hi Hn.
    apply lookup_lt_Some in Hi. lia.
  - intros e He Hc. apply elem_of_app in He as [He|He]; [|by apply F2].
    destruct D2 as [k ->]. rewrite fmap_app, elem_of_app. left. by apply F1.
Qed.


(** X10: whatever the spaCy pipeline returns, and also without it, the
    entities of [enhance_with_nlp] have names that are pairwise distinct
    up to letter case and confidences of at least 0.6. *)
Theorem enhance_with_nlp_unique
    (spacy : option (string -> list entity * list relationship)) (text : string) :
  NoDup ((fun e => lower (e_name e)) <$> (enhance_with_nlp spacy text).1)
  ∧ Forall (fun e => (0.6 <=? e_confidence e)%float = true)
           (enhance_with_nlp spacy text).1.
Proof.
  unfold enhance_with_nlp. destruct spacy as [nlp|].
  - destruct (nlp text) as [ents rels]. cbn [fst].
    destruct (merge_entities_inv ents (extract_entities text)) as (_ & _ & _ & A & B & _).
    done.
  - cbn [fst extract_entities_and_relationships]. unfold extract_entities.
    rewrite dedup_pass_spec. split; [apply pass_from_NoDup|].
    apply Forall_forall. intros e He. by apply pass_from_elem in He as [He _].
Qed.

(** **** Merging relationships *)

Lemma merge_rel_fold_inv (l : list relationship) :
  forall (st : list relationship * gset (string * string * string)),
  (forall k, k ∈ st.2 <-> k ∈ (rel_key <$> st.1)) ->
  NoDup (rel_key <$> st.1) ->
  ∃ l', (fold_left merge_rel_step l st).1 = st.1 ++ l'
        ∧ l' `sublist_of` l
        ∧ NoDup (rel_key <$> st.1 ++ l')
        ∧ Forall (fun rel => (0.5 <=? r_confidence rel)%float = true
                             ∧ lower (r_source rel) ≠ lower (r_target rel)) l'.
Proof.
  induction l as [|rel l IH]; intros [merged seen] Hs Hn; cbn [fold_left].
  - exists []. rewrite app_nil_r. split_and!; [done..|constructor].
  - unfold merge_rel_step at 2. fold (rel_key rel).
    destruct (negb (bool_decide (rel_key rel ∈ seen))
              && (0.5 <=? r_confidence rel)%float
              && negb (String.eqb (lower (r_source rel)) (lower (r_target rel)))) eqn:E.
    + apply andb_true_iff in E as [E E3]. apply andb_true_iff in E as [E1 E2].
      apply negb_true_iff, bool_decide_eq_false in E1.
      apply negb_true_iff, String.eqb_neq in E3.
      destruct (IH (merged ++ [rel], seen ∪ {[ rel_key rel ]})) as (l' & Hl' & Hsub & Hnd & Hf).
      * intros k. cbn [fst snd] in *. rewrite fmap_app, elem_of_app, elem_of_union, Hs.
        cbn. by rewrite list_elem_of_singleton, elem_of_singleton.
      * cbn [fst snd] in *. rewrite fmap_app. apply NoDup_app. split_and!; [done| |].
        -- intros k Hk Hk'. cbn in Hk'. apply list_elem_of_singleton in Hk'. subst k.
           by apply E1, Hs.
        -- cbn. apply NoDup_singleton.
      * cbn [fst] in *. exists (rel :: l'). rewrite Hl', <- app_assoc.
        split_and!; [done|by apply sublist_skip|by rewrite <- app_assoc in Hnd|].
        by constructor.
    + destruct (IH (merged, seen) Hs Hn) as (l' & Hl' & Hsub & Hnd & Hf).
      exists l'. split_and!; [done|by apply sublist_cons|done..].
Qed.

(** X11: [_merge_relationship_lists] returns relationships of its two
    lists in their order; no two of them have the same lower-case
    source, lower-case target and type, each has confidence at least
    0.5, and none joins a name to itself up to letter case. *)
Theorem merge_relationship_lists_spec (nlp_rels pattern_rels : list relationship) :
  _merge_relationship_lists nlp_rels pattern_rels `sublist_of` nlp_rels ++ pattern_rels
  ∧ NoDup ((fun rel => (lower (r_source rel), lower (r_target rel), r_type rel))
             <$> _merge_relationship_lists nlp_rels pattern_rels)
  ∧ Forall (fun rel => (0.5 <=? r_confidence rel)%float = true
                       ∧ lower (r_source rel) ≠ lower (r_target rel))
           (_merge_relationship_lists nlp_rels pattern_rels).
Proof.
  unfold _merge_relationship_lists.
  destruct (merge_rel_fold_inv (nlp_rels ++ pattern_rels) ([], ∅))
    as (l' & -> & Hsub & Hnd & Hf).
  { intros k. cbn. rewrite elem_of_nil. set_solver. }
  { constructor. }
  cbn [fst app] in *. done.
Qed.

End ExtractionMore.

(** *** More on the graph store *)

Module StoreMore.
Import PyStr RelationshipManager KnowledgeGraphService StoreSpec ListFacts StoreProps.
Import GraphViews MoreSpec.
Set Warnings "-inexact-float".

(** **** Deduplication *)

Lemma dedup_from_sublist {A : Type} (get_id : A -> string) (l : list A) :
  forall seen, dedup_from get_id seen l `sublist_of` l.
Proof.
  induction l as [|x l IH]; intros seen; simpl; [done|].
  destruct (bool_decide (get_id x ∈ seen)).
  - by apply sublist_cons.
  - by apply sublist_skip.
Qed.

Lemma dedup_sublist {A : Type} (get_id : A -> string) (l : list A) :
  _deduplicate_list_by_id get_id l `sublist_of` l.
Proof. rewrite dedup_spec. apply dedup_from_sublist. Qed.




(** X12: [_deduplicate_list_by_id] returns a sublist of its argument
    with pairwise distinct ids in which every id of the argument still
    occurs; it changes nothing on a list without repeated ids, and so is
    idempotent. *)
Theorem deduplicate_list_by_id_spec {A : Type} (get_id : A -> string) (items : list A) :
  _deduplicate_list_by_id get_id items `sublist_of` items
  ∧ NoDup (get_id <$> _deduplicate_list_by_id get_id items)
  ∧ (forall x, x ∈ items ->
               get_id x ∈ (get_id <$> _deduplicate_list_by_id get_id items))
  ∧ (NoDup (get_id <$> items) -> _deduplicate_list_by_id get_id items = items)
  ∧ _deduplicate_list_by_id get_id (_deduplicate_list_by_id get_id items)
    = _deduplicate_list_by_id get_id items.
Proof.
  split_and!.
  - apply dedup_sublist.
  - apply dedup_NoDup.
  - apply dedup_covers.
  - apply dedup_fixed.
  - apply dedup_fixed, dedup_NoDup.
Qed.

Lemma deduplicate_list_by_id_spec_witness :
  NoDup ((fun x : string => x) <$> ["a"; "b"])
  ∧ _deduplicate_list_by_id (fun x : string => x) ["a"; "b"] = ["a"; "b"].
Proof.
  assert (H : NoDup ((fun x : string => x) <$> ["a"; "b"])).
  { apply (bool_decide_unpack _). vm_compute. exact I. }
  destruct (deduplicate_list_by_id_spec (fun x : string => x) ["a"; "b"])
    as (_ & _ & _ & F & _).
  exact (conj H (F H)).
Defined.

(** **** Save and load *)



(** **** Seed data *)

Lemma sample_node_id_elem n : n ∈ sample_nodes -> node_id n ∈ ids_of node_id sample_nodes.
Proof. intros H. apply elem_of_ids_of. by apply list_elem_of_fmap_2. Qed.

Lemma sample_edge_ends e :
  e ∈ sample_edges ->
  edge_source e ∈ ids_of node_id sample_nodes ∧ edge_target e ∈ ids_of node_id sample_nodes.
Proof.
  intros H. pose proof (proj1 (Forall_forall _ _) sample_edges_closed e H) as [H1 H2].
  split; by apply elem_of_ids_of.
Qed.

(** **** [delete_node] *)






Lemma filter_length_all {A : Type} (P : A -> Prop) `{forall x, Decision (P x)}
    (l : list A) :
  (forall x, x ∈ l -> P x) -> length l - length (filter P l) = 0.
Proof. intros H0. rewrite filter_all by done. lia. Qed.





(** **** [clear_all_graph_data] *)

Lemma fold_union_elem (l : list node) : forall (d : gset string) i,
  i ∈ fold_left (fun d n => d ∪ {[ node_id n ]}) l d <-> i ∈ d ∨ i ∈ (node_id <$> l).
Proof.
  induction l as [|n l IH]; intros d i; cbn [fold_left].
  - rewrite fmap_nil, elem_of_nil. tauto.
  - rewrite IH, elem_of_union, elem_of_singleton, fmap_cons, elem_of_cons. tauto.
Qed.

Lemma clear_deleted uid s i :
  i ∈ deleted_sample_nodes (clear_all_graph_data uid s).1
  <-> i ∈ deleted_sample_nodes s ∨ i ∈ ids_of node_id sample_nodes.
Proof.
  unfold clear_all_graph_data. cbv zeta. cbn [fst]. rewrite load_save.
  cbn [deleted_sample_nodes]. rewrite fold_union_elem, elem_of_ids_of. done.
Qed.

(** X17 (Scenario B): after [clear_all_graph_data] the combined view is
    empty, whatever the store held, and the call reports the generated
    items plus the 13 seed nodes and the 9 seed edges as removed. *)
Theorem clear_all_then_empty (user_id : option string) (s : service) :
  get_combined_graph_data (clear_all_graph_data user_id s).1 = {| nodes := []; edges := [] |}
  ∧ cr_nodes_removed (clear_all_graph_data user_id s).2 = length (generated_nodes s) + 13
  ∧ cr_edges_removed (clear_all_graph_data user_id s).2 = length (generated_edges s) + 9.
Proof.
  split_and!; [|reflexivity..].
  unfold get_combined_graph_data. rewrite clear_nodes, clear_edges, !app_nil_r.
  cbn [nodes edges _get_sample_graph_data]. f_equal.
  - apply filter_none. intros n Hn Hd. apply Hd, clear_deleted. right.
    by apply sample_node_id_elem.
  - apply filter_none. intros e He [Hd _]. apply Hd, clear_deleted. right.
    by apply sample_edge_ends.
Qed.


(** **** Ids of generated items *)

Lemma indexed_id_extracted tid i :
  startswith "extracted_" (indexed_id "extracted" tid i) = true.
Proof. unfold indexed_id. by destruct (truthy_id tid). Qed.

Lemma indexed_id_rel tid i : startswith "rel_" (indexed_id "rel" tid i) = true.
Proof. unfold indexed_id. by destruct (truthy_id tid). Qed.

Lemma sample_node_ids_plain :
  Forall (fun i => startswith "extracted_" i = false) sample_node_ids.
Proof. repeat constructor. Qed.

Lemma sample_edge_ids_plain :
  Forall (fun i => startswith "rel_" i = false) sample_edge_ids.
Proof. repeat constructor. Qed.

Lemma make_new_nodes_ids ents tid uid n :
  n ∈ make_new_nodes ents tid uid -> ∃ i, node_id n = indexed_id "extracted" tid i.
Proof.
  unfold make_new_nodes. revert n.
  apply (fold_left_inv (fun acc => forall n, n ∈ acc ->
           ∃ i, node_id n = indexed_id "extracted" tid i)).
  { intros n H. by apply elem_of_nil in H. }
  intros acc [i e] _ Hacc n. unfold new_node_step.
  destruct (String.eqb (pe_name e) "" || (String.length (strip (pe_name e)) =? 0));
    [apply Hacc|].
  intros H. apply elem_of_app in H as [H|H]; [by apply Hacc|].
  apply list_elem_of_singleton in H. subst n. by exists i.
Qed.

Lemma make_new_edges_ids rels new_nodes tid uid e :
  e ∈ make_new_edges rels new_nodes tid uid -> ∃ i, edge_id e = indexed_id "rel" tid i.
Proof.
  unfold make_new_edges. revert e.
  apply (fold_left_inv (fun acc => forall e, e ∈ acc ->
           ∃ i, edge_id e = indexed_id "rel" tid i)).
  { intros e H. by apply elem_of_nil in H. }
  intros acc [i rel] _ Hacc e. unfold new_edge_step.
  destruct (best_match _ _); [|apply Hacc].
  destruct (best_match _ _); [|apply Hacc].
  destruct (_ || _); [apply Hacc|].
  intros H. apply elem_of_app in H as [H|H]; [by apply Hacc|].
  apply list_elem_of_singleton in H. subst e. by exists i.
Qed.

Lemma new_node_not_sample ents tid uid n :
  n ∈ make_new_nodes ents tid uid -> node_id n ∉ sample_node_ids.
Proof.
  intros H Hin. apply make_new_nodes_ids in H as [i E].
  pose proof (proj1 (Forall_forall _ _) sample_node_ids_plain _ Hin) as Hp.
  rewrite E, indexed_id_extracted in Hp. discriminate.
Qed.

Lemma new_edge_not_sample rels new_nodes tid uid e :
  e ∈ make_new_edges rels new_nodes tid uid -> edge_id e ∉ sample_edge_ids.
Proof.
  intros H Hin. apply make_new_edges_ids in H as [i E].
  pose proof (proj1 (Forall_forall _ _) sample_edge_ids_plain _ Hin) as Hp.
  rewrite E, indexed_id_rel in Hp. discriminate.
Qed.

(** **** The generated graph is kept apart from the seed graph *)

Lemma NoDup_fmap_filter {A : Type} (f : A -> string) (P : A -> Prop)
    `{forall x, Decision (P x)} (l : list A) :
  NoDup (f <$> l) -> NoDup (f <$> filter P l).
Proof.
  intros Hnd. apply (sublist_NoDup _ (f <$> l)); [exact Hnd|].
  apply fmap_sublist, sublist_filter.
Qed.

Lemma import_text_nodes text title s :
  node_id <$> generated_nodes (import_text text title s).1 =
    (fun en : string * string * string * string => en.1.1.1) <$> local_entities.
Proof. reflexivity. Qed.

Lemma import_text_edge_ids text title s :
  edge_id <$> generated_edges (import_text text title s).1 =
    (fun i => String.append "edge_" (str_of_nat i)) <$> seq 0 25.
Proof. reflexivity. Qed.

Lemma separated_empty s : generated_nodes s = [] -> generated_edges s = [] -> separated s.
Proof.
  intros Hn He. unfold separated. rewrite Hn, He.
  split_and!; [constructor|constructor| |]; intros x H; by apply elem_of_nil in H.
Qed.

Lemma separated_step spacy s s' : api_step spacy s s' -> separated s -> separated s'.
Proof.
  intros Hstep (Hn & He & Hns & Hes). destruct Hstep.
  - unfold separated. rewrite generate_nodes, generate_edges. split_and!.
    + apply dedup_NoDup.
    + apply dedup_NoDup.
    + intros n H. apply merged_elem in H as [H|H]; [by apply Hns|].
      by eapply new_node_not_sample.
    + intros e H. apply merged_elem in H as [H|H]; [by apply Hes|].
      by eapply new_edge_not_sample.
  - unfold separated. split_and!.
    + rewrite import_text_nodes. apply (bool_decide_unpack _). vm_compute. exact I.
    + rewrite import_text_edge_ids. apply (bool_decide_unpack _). vm_compute. exact I.
    + intros n H. apply (list_elem_of_fmap_2 node_id) in H.
      rewrite import_text_nodes in H. revert H. generalize (node_id n).
      apply Forall_forall. apply (bool_decide_unpack _). vm_compute. exact I.
    + intros e H. apply (list_elem_of_fmap_2 edge_id) in H.
      rewrite import_text_edge_ids in H. revert H. generalize (edge_id e).
      apply Forall_forall. apply (bool_decide_unpack _). vm_compute. exact I.
  - unfold separated. rewrite delete_nodes, delete_edges. split_and!.
    + by apply NoDup_fmap_filter.
    + by apply NoDup_fmap_filter.
    + intros n H. apply list_elem_of_filter in H as [_ H]. by apply Hns.
    + intros e H. apply list_elem_of_filter in H as [_ H]. by apply Hes.
  - apply separated_empty; [apply clear_nodes|apply clear_edges].
Qed.

Lemma api_reachable_separated spacy s : api_reachable spacy s -> separated s.
Proof.
  induction 1 as [s Hn He|s text tid uid _ IH|s text title _ IH|s nid _ IH|s uid _ IH].
  - by apply separated_empty.
  - eapply (separated_step spacy); [apply step_generate|exact IH].
  - eapply (separated_step spacy); [apply step_import|exact IH].
  - eapply (separated_step spacy); [apply step_delete|exact IH].
  - eapply (separated_step spacy); [apply (step_clear _ _ uid)|exact IH].
Qed.


(** X18: in every state the store reaches from an empty generated graph
    by calls of [generate_graph_from_text], [import_text], [delete_node]
    and [clear_all_graph_data], the nodes of the combined view have
    pairwise distinct ids and so have its edges. *)
Theorem api_reachable_unique_ids
    (spacy : option (string -> list entity * list relationship)) (s : service) :
  api_reachable spacy s ->
  NoDup (node_id <$> nodes (get_combined_graph_data s))
  ∧ NoDup (edge_id <$> edges (get_combined_graph_data s)).
Proof.
  intros H. apply api_reachable_separated in H as (Hn & He & Hns & Hes).
  unfold get_combined_graph_data. cbn [nodes edges _get_sample_graph_data].
  rewrite !fmap_app. split; apply NoDup_app; split_and!; try done.
  - apply NoDup_fmap_filter. apply sample_node_ids_NoDup.
  - intros i Hi Hi'. apply list_elem_of_fmap in Hi as (n & -> & Hin).
    apply list_elem_of_filter in Hin as [_ Hin].
    apply list_elem_of_fmap in Hi' as (n' & E & Hin').
    apply (Hns n' Hin'). rewrite <- E. by apply list_elem_of_fmap_2.
  - apply NoDup_fmap_filter. apply (bool_decide_unpack _). vm_compute. exact I.
  - intros i Hi Hi'. apply list_elem_of_fmap in Hi as (e & -> & Hin).
    apply list_elem_of_filter in Hin as [_ Hin].
    apply list_elem_of_fmap in Hi' as (e' & E & Hin').
    apply (Hes e' Hin'). rewrite <- E. by apply list_elem_of_fmap_2.
Qed.

Lemma api_reachable_unique_ids_witness :
  api_reachable None (import_text "notes" None apple_deleted).1
  ∧ NoDup (node_id <$>
             nodes (get_combined_graph_data (import_text "notes" None apple_deleted).1)).
Proof.
  assert (H : api_reachable None (import_text "notes" None apple_deleted).1).
  { apply api_import, api_delete, api_empty; reflexivity. }
  destruct (api_reachable_unique_ids None _ H) as [A _].
  exact (conj H A).
Defined.

(** **** Tombstones *)





(** **** [import_text] *)

(** X20: after [import_text], whatever the text, the title and the
    store, the combined view has a dangling edge: the hard-coded
    relationship from "business_school" to "education" has no node for
    its target. *)
Theorem import_text_dangling (text : string) (title : option string) (s : service) :
  ∃ e, e ∈ edges (get_combined_graph_data (import_text text title s).1)
       ∧ edge_source e = "business_school"
       ∧ edge_target e = "education"
       ∧ Forall (fun n => node_id n ≠ edge_target e)
                (nodes (get_combined_graph_data (import_text text title s).1)).
Proof.
  exists (local_edge (or_default title "Direct Text Import")
            (13, ("business_school", "education", "CATEGORY"))).
  split_and!; [|reflexivity..|].
  - unfold get_combined_graph_data. cbn [edges]. apply elem_of_app. right.
    change (generated_edges (import_text text title s).1)
      with (local_edge (or_default title "Direct Text Import")
              <$> enumerate local_relationships).
    apply list_elem_of_fmap_2. do 13 right. left.
  - apply Forall_forall. intros n Hn E.
    apply (list_elem_of_fmap_2 node_id) in Hn. rewrite E in Hn.
    unfold get_combined_graph_data in Hn. cbn [nodes _get_sample_graph_data] in Hn.
    rewrite fmap_app in Hn. apply elem_of_app in Hn as [Hn|Hn].
    + apply list_elem_of_fmap in Hn as (m & Em & Hm).
      apply list_elem_of_filter in Hm as [_ Hm].
      apply (list_elem_of_fmap_2 node_id) in Hm. rewrite <- Em in Hm.
      revert Hm. apply (bool_decide_unpack _). vm_compute. exact I.
    + rewrite import_text_nodes in Hn.
      revert Hn. apply (bool_decide_unpack _). vm_compute. exact I.
Qed.


(** **** What an import adds *)






(** X22: whatever the store held, after [generate_graph_from_text] the
    generated nodes and the generated edges have pairwise distinct ids,
    and so have the node list and the edge list of the response; the
    response lists every seed node and holds only seed and generated
    items. *)
Theorem generate_unique_ids
    (spacy : option (string -> list entity * list relationship))
    (text : string) (transcript_id : option Z) (user_id : option string) (s : service) :
  let r := generate_graph_from_text spacy text transcript_id user_id s in
  NoDup (node_id <$> generated_nodes r.1)
  ∧ NoDup (edge_id <$> generated_edges r.1)
  ∧ NoDup (node_id <$> gr_nodes r.2)
  ∧ NoDup (edge_id <$> gr_edges r.2)
  ∧ Forall (fun n => n ∈ gr_nodes r.2) sample_nodes
  ∧ Forall (fun n => n ∈ sample_nodes ∨ n ∈ generated_nodes r.1) (gr_nodes r.2).
Proof.
  intros r. split_and!; try apply dedup_NoDup.
  - apply Forall_forall. intros n Hn.
    change (gr_nodes r.2)
      with (_deduplicate_list_by_id node_id (sample_nodes ++ generated_nodes r.1)).
    destruct (list_elem_of_split _ _ Hn) as (l1 & l2 & Hsplit).
    pose proof sample_node_ids_NoDup as Hnd.
    rewrite Hsplit in Hnd |- *. rewrite <- app_assoc, <- app_comm_cons.
    apply dedup_first. intros x Hx E.
    rewrite fmap_app, fmap_cons in Hnd. apply NoDup_app in Hnd as (_ & Hnd & _).
    apply (Hnd (node_id x)); [by apply list_elem_of_fmap_2|]. rewrite E. left.
  - apply Forall_forall. intros n Hn. apply dedup_elem in Hn.
    by apply elem_of_app in Hn.
Qed.

(** **** Ids are injective in the index and in the transcript id *)

Lemma uint_no_underscore d : sany (Ascii.eqb "_") (NilEmpty.string_of_uint d) = false.
Proof. induction d; simpl; done. Qed.

Lemma str_of_Z_no_underscore z : sany (Ascii.eqb "_") (str_of_Z z) = false.
Proof.
  unfold str_of_Z, NilZero.string_of_int, NilZero.string_of_uint.
  destruct (Z.to_int z) as [d|d]; destruct d; simpl; try done; apply uint_no_underscore.
Qed.

Lemma to_int_proper z : Z.to_int z ≠ Decimal.Pos Decimal.Nil ∧ Z.to_int z ≠ Decimal.Neg Decimal.Nil.
Proof.
  destruct z as [|p|p]; simpl; split; try discriminate; intros [= H];
    by apply Unsigned.to_uint_nonnil in H.
Qed.

Lemma str_of_Z_inj a b : str_of_Z a = str_of_Z b -> a = b.
Proof.
  unfold str_of_Z. intros H. apply (f_equal NilZero.int_of_string) in H.
  destruct (to_int_proper a), (to_int_proper b).
  rewrite !NilZero.isi in H by done. injection H as H. by apply DecimalZ.to_int_inj.
Qed.

Lemma str_of_nat_inj i j : str_of_nat i = str_of_nat j -> i = j.
Proof. unfold str_of_nat. intros H. apply str_of_Z_inj in H. lia. Qed.

Lemma cut_at_underscore (a b x y : string) :
  sany (Ascii.eqb "_") a = false -> sany (Ascii.eqb "_") b = false ->
  String.append a (String "_" x) = String.append b (String "_" y) -> a = b.
Proof.
  revert b. induction a as [|c a IH]; intros [|d b] Ha Hb H; try done.
  - injection H as H _. subst d. cbn in Hb. discriminate Hb.
  - injection H as H _. subst c. cbn in Ha. discriminate Ha.
  - injection H as -> H. f_equal. simpl in Ha, Hb.
    apply orb_false_iff in Ha as [_ Ha]. apply orb_false_iff in Hb as [_ Hb].
    by apply IH.
Qed.

Lemma indexed_id_inj prefix tid i j :
  indexed_id prefix tid i = indexed_id prefix tid j -> i = j.
Proof.
  unfold indexed_id. destruct (truthy_id tid) as [z|]; intros H.
  - do 4 apply (inj (String.append _)) in H. by apply str_of_nat_inj.
  - do 2 apply (inj (String.append _)) in H. by apply str_of_nat_inj.
Qed.

Lemma indexed_id_tid_inj prefix z z' i j :
  z ≠ 0%Z -> z' ≠ 0%Z ->
  indexed_id prefix (Some z) i = indexed_id prefix (Some z') j -> z = z'.
Proof.
  intros Hz Hz'. unfold indexed_id, truthy_id.
  rewrite (proj2 (Z.eqb_neq z 0)), (proj2 (Z.eqb_neq z' 0)) by done.
  intros H. do 2 apply (inj (String.append _)) in H.
  apply str_of_Z_inj. eapply cut_at_underscore; [..|exact H];
    apply str_of_Z_no_underscore.
Qed.

Lemma new_nodes_NoDup tid uid (l : list processed_entity) : forall k acc,
  NoDup (node_id <$> acc) ->
  (forall n, n ∈ acc -> ∃ i, i < k ∧ node_id n = indexed_id "extracted" tid i) ->
  NoDup (node_id <$> fold_left (new_node_step tid uid) (enumerate_from k l) acc).
Proof.
  induction l as [|e l IH]; intros k acc Hnd Hacc; cbn [enumerate_from fold_left]; [done|].
  apply IH.
  - unfold new_node_step. destruct (_ || _); [done|].
    rewrite fmap_app. apply NoDup_app. split_and!; [done| |apply NoDup_singleton].
    intros i Hi Hi'. cbn in Hi'. apply list_elem_of_singleton in Hi'.
    apply list_elem_of_fmap in Hi as (n & E & Hn).
    destruct (Hacc n Hn) as (j & Hj & Ej). rewrite E, Ej in Hi'.
    apply indexed_id_inj in Hi'. lia.
  - intros n Hn. unfold new_node_step in Hn. destruct (_ || _).
    + destruct (Hacc n Hn) as (j & Hj & Ej). exists j. split; [lia|done].
    + apply elem_of_app in Hn as [Hn|Hn].
      * destruct (Hacc n Hn) as (j & Hj & Ej). exists j. split; [lia|done].
      * apply list_elem_of_singleton in Hn. subst n. exists k. split; [lia|done].
Qed.

Lemma make_new_nodes_NoDup ents tid uid : NoDup (node_id <$> make_new_nodes ents tid uid).
Proof.
  unfold make_new_nodes, enumerate. apply new_nodes_NoDup; [constructor|].
  intros n H. by apply elem_of_nil in H.
Qed.

(** X23 (Scenario E with transcript ids): two imports with different
    non-zero [transcript_id]s into a store without generated nodes keep
    every node of both batches: [generated_nodes] is the first batch
    followed by the second, and its length is the sum of the two. *)
Theorem two_imports_accumulate
    (spacy : option (string -> list entity * list relationship))
    (text1 text2 : string) (z1 z2 : Z) (user1 user2 : option string) (s : service) :
  z1 ≠ 0%Z -> z2 ≠ 0%Z -> z1 ≠ z2 ->
  generated_nodes s = [] ->
  let batch1 :=
    make_new_nodes (extract_entities_and_relationships spacy text1).1 (Some z1) user1 in
  let batch2 :=
    make_new_nodes (extract_entities_and_relationships spacy text2).1 (Some z2) user2 in
  let s1 := (generate_graph_from_text spacy text1 (Some z1) user1 s).1 in
  let s2 := (generate_graph_from_text spacy text2 (Some z2) user2 s1).1 in
  generated_nodes s2 = batch1 ++ batch2
  ∧ length (generated_nodes s2) = length batch1 + length batch2.
Proof.
  intros Hz1 Hz2 Hne Hs batch1 batch2 s1 s2.
  assert (H1 : generated_nodes s1 = batch1).
  { unfold s1. rewrite generate_nodes, Hs. fold batch1.
    rewrite (merged_disjoint node_id [] batch1); [done|constructor| |].
    - apply make_new_nodes_NoDup.
    - intros x _ H. apply elem_of_ids_of in H. by apply elem_of_nil in H. }
  assert (H2 : generated_nodes s2 = batch1 ++ batch2).
  { unfold s2. rewrite generate_nodes, H1. fold batch2.
    apply merged_disjoint; [apply make_new_nodes_NoDup..|].
    intros x Hx Hin. apply elem_of_ids_of, list_elem_of_fmap in Hin as (y & E & Hy).
    apply make_new_nodes_ids in Hx as [i Ei]. apply make_new_nodes_ids in Hy as [j Ej].
    rewrite Ei, Ej in E. apply indexed_id_tid_inj in E; [|done..]. congruence. }
  split; [exact H2|]. rewrite H2. apply length_app.
Qed.

Lemma two_imports_accumulate_witness :
  (7 ≠ 0)%Z ∧ (8 ≠ 0)%Z ∧ (7 ≠ 8)%Z
  ∧ generated_nodes init_service = []
  ∧ length (generated_nodes
              (generate_graph_from_text None text_elon_musk (Some 8%Z) None
                 (generate_graph_from_text None text_tim_cook (Some 7%Z) None
                    init_service).1).1)
    = length (make_new_nodes
                (extract_entities_and_relationships None text_tim_cook).1 (Some 7%Z) None)
      + length (make_new_nodes
                  (extract_entities_and_relationships None text_elon_musk).1 (Some 8%Z) None).
Proof.
  assert (H1 : (7 ≠ 0)%Z) by lia.
  assert (H2 : (8 ≠ 0)%Z) by lia.
  assert (H3 : (7 ≠ 8)%Z) by lia.
  assert (H4 : generated_nodes init_service = []) by reflexivity.
  destruct (two_imports_accumulate None text_tim_cook text_elon_musk 7 8 None None
              init_service H1 H2 H3 H4) as [_ A].
  exact (conj H1 (conj H2 (conj H3 (conj H4 A)))).
Defined.

(** **** The audio and summary graph *)

Lemma zip_elem {A B : Type} (l : list A) : forall (k : list B) x y,
  (x, y) ∈ zip l k -> x ∈ l ∧ y ∈ k.
Proof.
  induction l as [|a l IH]; intros [|b k] x y H; simpl in H;
    try by apply elem_of_nil in H.
  apply elem_of_cons in H as [[= -> ->]|H]; [split; left|].
  apply IH in H as [? ?]. split; by right.
Qed.

Lemma zip_length {A B : Type} (l : list A) : forall (k : list B),
  length (zip l k) = Nat.min (length l) (length k).
Proof. induction l as [|a l IH]; intros [|b k]; simpl; [done..|]. by rewrite IH. Qed.

Lemma zip_fst_NoDup {A B C : Type} (f : A -> C) (l : list A) : forall (k : list B),
  NoDup (f <$> l) -> NoDup ((fun p => f p.1) <$> zip l k).
Proof.
  induction l as [|a l IH]; intros [|b k] Hnd; simpl; try constructor.
  - rewrite fmap_cons in Hnd. apply NoDup_cons in Hnd as [Ha _].
    intros H. apply list_elem_of_fmap in H as ([x y] & E & Hxy).
    apply zip_elem in Hxy as [Hx _]. apply Ha. simpl in E. rewrite E.
    by apply list_elem_of_fmap_2.
  - apply IH. rewrite fmap_cons in Hnd. by apply NoDup_cons in Hnd as [_ ?].
Qed.

Lemma NoDup_fmap_finer {A B C : Type} (f : A -> B) (g : A -> C) (l : list A) :
  (forall x y, f x = f y -> g x = g y) -> NoDup (g <$> l) -> NoDup (f <$> l).
Proof.
  intros Hfg. induction l as [|a l IH]; intros Hnd; [constructor|].
  rewrite fmap_cons in Hnd. rewrite fmap_cons. apply NoDup_cons in Hnd as [Ha Hnd].
  apply NoDup_cons. split; [|by apply IH].
  intros H. apply list_elem_of_fmap in H as (x & E & Hx). apply Ha.
  rewrite (Hfg _ _ E). by apply list_elem_of_fmap_2.
Qed.

Lemma audio_node_id_inj a b : node_id (audio_node a) = node_id (audio_node b) -> a.1.1 = b.1.1.
Proof.
  destruct a as [[a ?] ?], b as [[b ?] ?]. cbn. intros H.
  apply (inj (String.append _)) in H. by apply str_of_Z_inj.
Qed.

Lemma summary_node_id_inj a b :
  node_id (summary_node a) = node_id (summary_node b) -> a.1 = b.1.
Proof.
  destruct a as [a ?], b as [b ?]. cbn. intros H.
  apply (inj (String.append _)) in H. by apply str_of_Z_inj.
Qed.

Lemma generates_edge_id_inj p q :
  edge_id (generates_edge p) = edge_id (generates_edge q) -> p.1.1.1 = q.1.1.1.
Proof.
  destruct p as [[[a ?] ?] [x ?]], q as [[[b ?] ?] [y ?]]. cbn. intros H.
  apply (inj (String.append _)) in H. apply str_of_Z_inj.
  eapply cut_at_underscore; [..|exact H]; apply str_of_Z_no_underscore.
Qed.

Lemma audio_summary_ids_differ a b : node_id (audio_node a) ≠ node_id (summary_node b).
Proof. destruct a as [[a ?] ?], b as [b ?]. cbn. discriminate. Qed.

(** X24: in the graph [get_graph_data] builds from any rows of the two
    tables, node ids and edge ids are pairwise distinct, every edge is a
    GENERATES edge from an AUDIO node of the graph to a SUMMARY node of
    the graph, and there are at most as many edges as rows in the
    shorter table. *)
Theorem get_graph_data_linked (audio_rows : list audio_row) (summary_rows : list summary_row) :
  let g := get_graph_data audio_rows summary_rows in
  NoDup (node_id <$> nodes g)
  ∧ NoDup (edge_id <$> edges g)
  ∧ Forall (fun e =>
        edge_type e = "GENERATES"
        ∧ (∃ n, n ∈ nodes g ∧ node_id n = edge_source e ∧ node_type n = "AUDIO")
        ∧ (∃ m, m ∈ nodes g ∧ node_id m = edge_target e ∧ node_type m = "SUMMARY"))
      (edges g)
  ∧ length (edges g) <= Nat.min (length audio_rows) (length summary_rows).
Proof.
  intros g. split_and!; [apply dedup_NoDup..| |].
  - apply Forall_forall. intros e He. apply dedup_elem in He.
    apply list_elem_of_fmap in He as ([a b] & -> & Hab).
    apply zip_elem in Hab as [Ha Hb].
    assert (Hin : forall n, n ∈ nodes g ->
              (∃ a', n = audio_node a') ∨ (∃ b', n = summary_node b')).
    { intros n Hn. apply dedup_elem, elem_of_app in Hn as [Hn|Hn];
        apply list_elem_of_fmap in Hn as (r & -> & _); [left|right]; by exists r. }
    split_and!.
    + by destruct a as [[? ?] ?], b as [? ?].
    + assert (Hc : node_id (audio_node a) ∈ (node_id <$> nodes g)).
      { apply dedup_covers, elem_of_app. left. by apply list_elem_of_fmap_2. }
      apply list_elem_of_fmap in Hc as (n & E & Hn). exists n. split_and!; [done| |].
      * rewrite <- E. by destruct a as [[? ?] ?], b as [? ?].
      * destruct (Hin n Hn) as [[a' ->]|[b' ->]]; [by destruct a' as [[? ?] ?]|].
        by apply audio_summary_ids_differ in E.
    + assert (Hc : node_id (summary_node b) ∈ (node_id <$> nodes g)).
      { apply dedup_covers, elem_of_app. right. by apply list_elem_of_fmap_2. }
      apply list_elem_of_fmap in Hc as (n & E & Hn). exists n. split_and!; [done| |].
      * rewrite <- E. by destruct a as [[? ?] ?], b as [? ?].
      * destruct (Hin n Hn) as [[a' ->]|[b' ->]]; [|by destruct b' as [? ?]].
        symmetry in E. by apply audio_summary_ids_differ in E.
  - etrans; [apply sublist_length, dedup_sublist|].
    by rewrite length_fmap, zip_length.
Qed.

(** X25: when the ids of the audio rows are pairwise distinct and so are
    the ids of the summary rows (they are primary keys), [get_graph_data]
    drops nothing: it returns one node per row, audio nodes first, and
    one edge per pair of [zip(audio_rows, summary_rows)]. *)
Theorem get_graph_data_counts (audio_rows : list audio_row) (summary_rows : list summary_row) :
  NoDup ((fun r : audio_row => r.1.1) <$> audio_rows) ->
  NoDup ((fun r : summary_row => r.1) <$> summary_rows) ->
  let g := get_graph_data audio_rows summary_rows in
  nodes g = (audio_node <$> audio_rows) ++ (summary_node <$> summary_rows)
  ∧ edges g = (generates_edge <$> zip audio_rows summary_rows)
  ∧ length (nodes g) = length audio_rows + length summary_rows
  ∧ length (edges g) = Nat.min (length audio_rows) (length summary_rows).
Proof.
  intros Ha Hs g.
  assert (Hn : nodes g = (audio_node <$> audio_rows) ++ (summary_node <$> summary_rows)).
  { apply dedup_fixed. rewrite fmap_app. apply NoDup_app. split_and!.
    - rewrite <- list_fmap_compose.
      apply (NoDup_fmap_finer _ (fun r : audio_row => r.1.1)); [|done].
      intros x y. apply audio_node_id_inj.
    - intros i Hi Hi'.
      apply list_elem_of_fmap in Hi as (n & -> & Hn).
      apply list_elem_of_fmap in Hn as (a & -> & _).
      apply list_elem_of_fmap in Hi' as (m & E & Hm).
      apply list_elem_of_fmap in Hm as (b & -> & _).
      by apply audio_summary_ids_differ in E.
    - rewrite <- list_fmap_compose.
      apply (NoDup_fmap_finer _ (fun r : summary_row => r.1)); [|done].
      intros x y. apply summary_node_id_inj. }
  assert (He : edges g = generates_edge <$> zip audio_rows summary_rows).
  { apply dedup_fixed. rewrite <- list_fmap_compose.
    apply (NoDup_fmap_finer _ (fun p : audio_row * summary_row => p.1.1.1)).
    - intros x y. apply generates_edge_id_inj.
    - by apply (zip_fst_NoDup (fun r : audio_row => r.1.1)). }
  split_and!; [done..| |].
  - by rewrite Hn, length_app, !length_fmap.
  - by rewrite He, length_fmap, zip_length.
Qed.

Lemma get_graph_data_counts_witness :
  NoDup ((fun r : audio_row => r.1.1) <$> [(1%Z, Some "memo", None); (2%Z, None, None)])
  ∧ NoDup ((fun r : summary_row => r.1) <$> [(5%Z, Some "notes")])
  ∧ length (nodes (get_graph_data [(1%Z, Some "memo", None); (2%Z, None, None)]
                     [(5%Z, Some "notes")])) = 2 + 1
  ∧ length (edges (get_graph_data [(1%Z, Some "memo", None); (2%Z, None, None)]
                     [(5%Z, Some "notes")])) = Nat.min 2 1.
Proof.
  assert (H1 : NoDup ((fun r : audio_row => r.1.1)
                        <$> [(1%Z, Some "memo", None); (2%Z, None, None)])).
  { apply (bool_decide_unpack _). vm_compute. exact I. }
  assert (H2 : NoDup ((fun r : summary_row => r.1) <$> [(5%Z, Some "notes")])).
  { apply (bool_decide_unpack _). vm_compute. exact I. }
  destruct (get_graph_data_counts _ _ H1 H2) as (_ & _ & A & B).
  exact (conj H1 (conj H2 (conj A B))).
Defined.

(** **** Automatic deduplication *)

Lemma sublist_same_length {A : Type} (l1 l2 : list A) :
  l1 `sublist_of` l2 -> length l2 <= length l1 -> l1 = l2.
Proof.
  induction 1 as [|x l1 l2 _ IH|x l1 l2 Hs _]; simpl; intros Hl; [done| |].
  - f_equal. apply IH. lia.
  - apply sublist_length in Hs. lia.
Qed.

Lemma dedup_length_iff {A : Type} (get_id : A -> string) (l : list A) :
  length l - length (_deduplicate_list_by_id get_id l) = 0 <-> NoDup (get_id <$> l).
Proof.
  split.
  - intros H. rewrite <- (sublist_same_length _ _ (dedup_sublist get_id l)) by lia.
    apply dedup_NoDup.
  - intros H. rewrite dedup_fixed by done. lia.
Qed.

(** X26: [auto_deduplicate_graph] leaves generated nodes and edges with
    pairwise distinct ids; the counts it returns are the numbers of
    dropped items, and a count is 0 exactly when the list had no
    repeated id; a second run returns 0 and 0 and changes nothing. *)
Theorem auto_deduplicate_graph_counts (s : service) :
  let r := auto_deduplicate_graph s in
  NoDup (node_id <$> generated_nodes r.1)
  ∧ NoDup (edge_id <$> generated_edges r.1)
  ∧ length (generated_nodes r.1) + nodes_deduplicated r.2 = length (generated_nodes s)
  ∧ length (generated_edges r.1) + edges_deduplicated r.2 = length (generated_edges s)
  ∧ (nodes_deduplicated r.2 = 0 <-> NoDup (node_id <$> generated_nodes s))
  ∧ (edges_deduplicated r.2 = 0 <-> NoDup (edge_id <$> generated_edges s))
  ∧ auto_deduplicate_graph r.1
    = (r.1, {| nodes_deduplicated := 0; edges_deduplicated := 0 |}).
Proof.
  intros r.
  pose proof (sublist_length _ _ (dedup_sublist node_id (generated_nodes s))) as Ln.
  pose proof (sublist_length _ _ (dedup_sublist edge_id (generated_edges s))) as Le.
  split_and!.
  - apply dedup_NoDup.
  - apply dedup_NoDup.
  - cbn. lia.
  - cbn. lia.
  - apply dedup_length_iff.
  - apply dedup_length_iff.
  - unfold r, auto_deduplicate_graph, _deduplicate_generated_data. cbn.
    rewrite !(dedup_fixed _ (_deduplicate_list_by_id _ _)) by apply dedup_NoDup.
    by rewrite !Nat.sub_diag.
Qed.

(** **** Post-processing of the extraction *)

Lemma fold_left_length_le {A B : Type} (f : list A -> B -> list A) (l : list B) :
  (forall acc x, length (f acc x) <= S (length acc)) ->
  forall acc, length (fold_left f l acc) <= length acc + length l.
Proof.
  intros Hf. induction l as [|x l IH]; intros acc; simpl; [lia|].
  etrans; [apply IH|]. pose proof (Hf acc x). lia.
Qed.

Lemma post_food_step_mono text processed term e :
  e ∈ processed -> e ∈ post_food_step text processed term.
Proof.
  intros H. unfold post_food_step. destruct (_ && _); [|done].
  apply elem_of_app. by left.
Qed.

Lemma post_food_step_has text processed term :
  lower (title term) = term ->
  contains term (lower text) = true ->
  ∃ e, e ∈ post_food_step text processed term ∧ lower (pe_name e) = term.
Proof.
  intros Ht Hc. unfold post_food_step. rewrite Hc. cbn [andb].
  destruct (existsb _ processed) eqn:E; cbn [negb].
  - apply existsb_exists in E as (e & He & Heq). exists e. split.
    + by apply list_elem_of_In.
    + by apply String.eqb_eq.
  - eexists. split; [apply elem_of_app; right; left|]. exact Ht.
Qed.

Lemma food_terms_title : Forall (fun t => lower (title t) = t) food_terms.
Proof. repeat constructor. Qed.

(** X27: every entity [_post_process_entities] returns has a name of at
    least two characters that is none of the skipped words, and has type
    FOOD when its lower-cased name is one of the food names; for each of
    the food terms beer, ham, tacos and pickle that occurs in the
    lower-cased text the result has an entity of that lower-cased name;
    when the text mentions harvard the result has the ORGANIZATION
    Harvard University; at most five entities are added. *)
Theorem post_process_entities_spec (entities : list entity) (text : string) :
  let out := _post_process_entities entities text in
  Forall (fun e => 2 <= String.length (pe_name e)
                   ∧ in_list (lower (pe_name e)) skipped_names = false
                   ∧ (in_list (lower (pe_name e)) food_names = true -> pe_type e = "FOOD"))
    out
  ∧ Forall (fun t => contains t (lower text) = true ->
                     ∃ e, e ∈ out ∧ lower (pe_name e) = t) food_terms
  ∧ (contains "harvard" (lower text) = true ->
     ∃ e, e ∈ out ∧ pe_name e = "Harvard University" ∧ pe_type e = "ORGANIZATION")
  ∧ length out <= length entities + 5.
Proof.
  intros out. split_and!.
  - unfold out, _post_process_entities.
    apply fold_left_inv.
    + assert (H1 : Forall (fun e => 2 <= String.length (pe_name e)
                   ∧ in_list (lower (pe_name e)) skipped_names = false
                   ∧ (in_list (lower (pe_name e)) food_names = true -> pe_type e = "FOOD"))
                (fold_left post_entity_step entities [])).
      { apply fold_left_inv; [constructor|].
        intros acc e _ Hacc. unfold post_entity_step.
        destruct (String.length (e_name e) <? 2) eqn:El; [done|]. cbn [orb].
        destruct (in_list (lower (e_name e)) ["the"; "a"; "an"; "this"; "that"]) eqn:Es;
          [done|].
        apply Forall_app. split; [done|]. constructor; [|constructor].
        cbn [pe_name pe_type]. apply Nat.ltb_ge in El. split_and!; [done..|].
        intros Hf. change food_names
          with ["tacos al pastor"; "tacos"; "beer"; "ham"; "pickle"; "salt pickle"] in Hf.
        by rewrite Hf. }
      destruct (contains "harvard" (lower text)); [|done].
      apply Forall_app. split; [done|]. constructor; [|constructor].
      cbn [pe_name pe_type]. split_and!; [cbn; lia|done|]. intros H. discriminate H.
    + intros acc t Ht Hacc. unfold post_food_step. destruct (_ && _); [|done].
      apply Forall_app. split; [done|]. constructor; [|constructor].
      cbn [pe_name pe_type].
      repeat (apply elem_of_cons in Ht as [->|Ht]);
        [split_and!; [cbn; lia|done..].. | by apply elem_of_nil in Ht].
  - unfold out, _post_process_entities.
    set (p := if contains "harvard" (lower text) then _ else _).
    cbn [fold_left].
    pose proof food_terms_title as HT. unfold food_terms in HT |- *.
    apply Forall_cons in HT as [T1 HT]. apply Forall_cons in HT as [T2 HT].
    apply Forall_cons in HT as [T3 HT]. apply Forall_cons in HT as [T4 _].
    repeat apply Forall_cons_2; [| | | |constructor]; intros Hc.
    + destruct (post_food_step_has text p "beer" T1 Hc) as (e & He & E).
      exists e. split; [|done]. by do 3 apply post_food_step_mono.
    + destruct (post_food_step_has text (post_food_step text p "beer") "ham" T2 Hc)
        as (e & He & E).
      exists e. split; [|done]. by do 2 apply post_food_step_mono.
    + destruct (post_food_step_has text
                  (post_food_step text (post_food_step text p "beer") "ham") "tacos" T3 Hc)
        as (e & He & E).
      exists e. split; [|done]. by apply post_food_step_mono.
    + destruct (post_food_step_has text
                  (post_food_step text
                     (post_food_step text (post_food_step text p "beer") "ham") "tacos")
                  "pickle" T4 Hc) as (e & He & E).
      by exists e.
  - intros Hc. unfold out, _post_process_entities. rewrite Hc.
    eexists. split.
    + apply fold_left_inv; [apply elem_of_app; right; left|].
      intros acc t _ Hacc. by apply post_food_step_mono.
    + done.
  - unfold out, _post_process_entities.
    etrans; [apply fold_left_length_le|].
    { intros acc t. unfold post_food_step. destruct (_ && _); [|lia].
      rewrite length_app. simpl. lia. }
    assert (H1 : length (fold_left post_entity_step entities []) <= length entities).
    { etrans; [apply fold_left_length_le|simpl; lia].
      intros acc e. unfold post_entity_step. destruct (_ || _); [lia|].
      rewrite length_app. simpl. lia. }
    destruct (contains "harvard" (lower text)); [rewrite length_app|]; simpl; lia.
Qed.

Lemma post_process_entities_spec_witness :
  contains "harvard" (lower "Ham at Harvard") = true
  ∧ ∃ e, e ∈ _post_process_entities [] "Ham at Harvard"
         ∧ pe_name e = "Harvard University" ∧ pe_type e = "ORGANIZATION".
Proof.
  assert (H : contains "harvard" (lower "Ham at Harvard") = true) by reflexivity.
  destruct (post_process_entities_spec [] "Ham at Harvard") as (_ & _ & F & _).
  exact (conj H (F H)).
Defined.

(** X28: when the lower-cased text mentions neither restore nor taste,
    [_post_process_relationships] drops exactly the relationships with an
    end point shorter than two characters and copies the others, in
    order, with their type, weight and confidence. *)
Theorem post_process_relationships_plain (relationships : list relationship) (text : string) :
  contains "restore" (lower text) = false ->
  contains "taste" (lower text) = false ->
  Forall2 copies (_post_process_relationships relationships text)
    (filter long_ends relationships).
Proof.
  intros Hr Ht. unfold _post_process_relationships.
  assert (H : forall acc l, Forall2 copies acc l ->
            Forall2 copies (fold_left (post_rel_step text) relationships acc)
              (l ++ filter long_ends relationships)).
  { induction relationships as [|r rels IH]; intros acc l Hacc; cbn [fold_left].
    - by rewrite app_nil_r.
    - unfold post_rel_step at 2. rewrite Hr, Ht. cbn [andb].
      destruct (decide (long_ends r)) as [Hl|Hl].
      + rewrite filter_cons_True by done. destruct Hl as [H1 H2].
        rewrite (proj2 (Nat.ltb_ge _ _) H1), (proj2 (Nat.ltb_ge _ _) H2). cbn [orb].
        rewrite (cons_middle r), app_assoc. apply IH.
        apply Forall2_app; [done|]. constructor; [|constructor]. by repeat split.
      + rewrite filter_cons_False by done.
        destruct (String.length (r_source r) <? 2) eqn:E1; cbn [orb]; [by apply IH|].
        destruct (String.length (r_target r) <? 2) eqn:E2; [by apply IH|].
        apply Nat.ltb_ge in E1, E2. by destruct Hl. }
  apply (H [] []). constructor.
Qed.

Lemma post_process_relationships_plain_witness :
  contains "restore" (lower text_tim_cook) = false
  ∧ contains "taste" (lower text_tim_cook) = false
  ∧ Forall2 copies
      (_post_process_relationships (extract_relationships text_tim_cook) text_tim_cook)
      (filter long_ends (extract_relationships text_tim_cook)).
Proof.
  assert (H1 : contains "restore" (lower text_tim_cook) = false) by reflexivity.
  assert (H2 : contains "taste" (lower text_tim_cook) = false) by reflexivity.
  exact (conj H1 (conj H2
    (post_process_relationships_plain (extract_relationships text_tim_cook)
       text_tim_cook H1 H2))).
Defined.

(** **** Linking relationships to nodes *)

Lemma startswith_refl s : startswith s s = true.
Proof. induction s as [|c s IH]; simpl; [done|]. by rewrite Ascii.eqb_refl. Qed.

Lemma contains_refl s : contains s s = true.
Proof. destruct s; cbn [contains]; by rewrite startswith_refl. Qed.

Lemma dict_set_key k v d : k ∈ (fst <$> dict_set k v d).
Proof.
  induction d as [|[k' v'] d IH]; simpl; [left|].
  destruct (String.eqb k' k); rewrite fmap_cons; [left|by right].
Qed.

Lemma dict_set_keeps k v d k' : k' ∈ (fst <$> d) -> k' ∈ (fst <$> dict_set k v d).
Proof.
  induction d as [|[k0 v0] d IH]; intros H; [by apply elem_of_nil in H|].
  rewrite fmap_cons in H. cbn [fst] in H. cbn [dict_set].
  apply elem_of_cons in H as [->|H]; destruct (String.eqb k0 k) eqn:E; rewrite fmap_cons.
  - apply String.eqb_eq in E. subst. left.
  - left.
  - by right.
  - right. by apply IH.
Qed.

Lemma alias_node_step_keeps d n k :
  k ∈ (fst <$> d) -> k ∈ (fst <$> alias_node_step d n).
Proof.
  intros H. unfold alias_node_step. apply fold_left_inv; [by apply dict_set_keeps|].
  intros d' w _ Hd'. unfold alias_word_step. destruct (_ && _); [|done].
  by apply dict_set_keeps.
Qed.

Lemma alias_node_step_key d n : label_key n ∈ (fst <$> alias_node_step d n).
Proof.
  unfold alias_node_step. apply fold_left_inv; [apply dict_set_key|].
  intros d' w _ Hd'. unfold alias_word_step. destruct (_ && _); [|done].
  by apply dict_set_keeps.
Qed.

Lemma build_name_index_keys new_nodes n :
  n ∈ new_nodes -> label_key n ∈ (fst <$> build_name_index new_nodes).
Proof.
  intros H. apply list_elem_of_split in H as (l1 & l2 & ->).
  unfold build_name_index. rewrite fold_left_app. cbn [fold_left].
  apply fold_left_inv; [apply alias_node_step_key|].
  intros d m _ Hd. by apply alias_node_step_keeps.
Qed.

Lemma match_step_some text st kv : st.1 ≠ None -> (match_step text st kv).1 ≠ None.
Proof.
  intros H. unfold match_step. destruct kv as [k v].
  destruct (_ || _); [|done]. destruct (negb _); [done|done].
Qed.

Lemma best_match_exact text d :
  text ≠ "" -> text ∈ (fst <$> d) -> ∃ i, best_match text d = Some i.
Proof.
  intros Hne Hin. apply list_elem_of_fmap in Hin as ([k v] & Hk & Hkv). cbn in Hk. subst k.
  apply list_elem_of_split in Hkv as (d1 & d2 & ->).
  unfold best_match. rewrite fold_left_app. cbn [fold_left].
  assert (H1 : (fold_left (match_step text) d1 (None, 0%Q)).1 = None ->
               (fold_left (match_step text) d1 (None, 0%Q)).2 = 0%Q).
  { apply (fold_left_inv (fun st => st.1 = None -> st.2 = 0%Q)); [done|].
    intros st [k' v'] _ Hst. unfold match_step.
    destruct (_ || _); [|done]. destruct (negb _); [discriminate|done]. }
  set (st := fold_left (match_step text) d1 (None, 0%Q)) in *.
  assert (H2 : (match_step text st (text, v)).1 ≠ None).
  { unfold match_step. rewrite contains_refl, String.eqb_refl. cbn [orb].
    destruct st as [[b|] sc]; cbn [fst snd] in *.
    - by destruct (negb _).
    - rewrite H1 by done.
      assert (E : Qle_bool (inject_Z (Z.of_nat (String.length text))) 0 = false).
      { unfold Qle_bool. cbn. apply Z.leb_gt. destruct text; [done|]. cbn. lia. }
      by rewrite E. }
  assert (H3 : (fold_left (match_step text) d2 (match_step text st (text, v))).1 ≠ None).
  { apply (fold_left_inv (fun st => st.1 ≠ None)); [done|].
    intros st' kv _ Hst. by apply match_step_some. }
  destruct (fold_left _ d2 _).1 as [i|]; [by exists i|done].
Qed.

Lemma new_edge_step_mono tid uid d acc ir e :
  e ∈ acc -> e ∈ new_edge_step tid uid d acc ir.
Proof.
  intros H. unfold new_edge_step. destruct ir as [i rel].
  destruct (best_match _ d); [|done]. destruct (best_match _ d); [|done].
  destruct (_ || _); [done|]. apply elem_of_app. by left.
Qed.

Lemma enumerate_from_lookup {A : Type} (l : list A) : forall k i x,
  l !! i = Some x -> (k + i, x) ∈ enumerate_from k l.
Proof.
  induction l as [|y l IH]; intros k [|i] x H; try done; cbn [enumerate_from].
  - injection H as ->. rewrite Nat.add_0_r. left.
  - right. replace (k + S i) with (S k + i) by lia. by apply IH.
Qed.

Lemma new_node_label_nonempty ents tid uid n :
  n ∈ make_new_nodes ents tid uid -> node_label n ≠ "".
Proof.
  unfold make_new_nodes. revert n.
  apply (fold_left_inv (fun acc => forall n, n ∈ acc -> node_label n ≠ "")).
  { intros n H. by apply elem_of_nil in H. }
  intros acc [i e] _ Hacc n. unfold new_node_step.
  destruct (String.eqb _ _); cbn [orb]; [apply Hacc|].
  destruct (String.length (strip (pe_name e)) =? 0) eqn:E; [apply Hacc|].
  intros H. apply elem_of_app in H as [H|H]; [by apply Hacc|].
  apply list_elem_of_singleton in H. subst n. cbn [node_label].
  apply Nat.eqb_neq in E. intros Hs. by rewrite Hs in E.
Qed.

(** X29: in [generate_graph_from_text], a relationship whose source and
    target are, up to letter case, labels of nodes of the new batch
    always yields an edge: the edge with the index of the relationship
    in its id, the type of the relationship, and nodes of the batch at
    both ends. *)
Theorem named_endpoints_linked (entities : list processed_entity)
    (relationships : list processed_relationship)
    (transcript_id : option Z) (user_id : option string)
    (i : nat) (rel : processed_relationship) :
  relationships !! i = Some rel ->
  lower (pr_source rel) ∈ (label_key <$> make_new_nodes entities transcript_id user_id) ->
  lower (pr_target rel) ∈ (label_key <$> make_new_nodes entities transcript_id user_id) ->
  ∃ e, e ∈ make_new_edges relationships
             (make_new_nodes entities transcript_id user_id) transcript_id user_id
       ∧ edge_id e = indexed_id "rel" transcript_id i
       ∧ edge_type e = pr_type rel
       ∧ edge_source e ∈ (node_id <$> make_new_nodes entities transcript_id user_id)
       ∧ edge_target e ∈ (node_id <$> make_new_nodes entities transcript_id user_id).
Proof.
  intros Hi Hs Ht.
  set (new_nodes := make_new_nodes entities transcript_id user_id) in *.
  assert (Hfind : forall text, text ∈ (label_key <$> new_nodes) ->
            ∃ nid, best_match text (build_name_index new_nodes) = Some nid
                   ∧ nid ∈ (node_id <$> new_nodes) ∧ String.eqb nid "" = false).
  { intros text Hin. apply list_elem_of_fmap in Hin as (n & -> & Hn).
    destruct (best_match_exact (label_key n) (build_name_index new_nodes)) as [nid E].
    - apply new_node_label_nonempty in Hn. unfold label_key.
      by destruct (node_label n).
    - by apply build_name_index_keys.
    - exists nid. split; [done|].
      apply best_match_value, list_elem_of_fmap in E as (kv & -> & Hkv).
      apply build_name_index_values in Hkv. split; [done|].
      apply list_elem_of_fmap in Hkv as (m & -> & Hm).
      apply make_new_nodes_ids in Hm as [j ->].
      pose proof (indexed_id_extracted transcript_id j) as Hp.
      by destruct (indexed_id "extracted" transcript_id j). }
  destruct (Hfind _ Hs) as (sid & Es & Hsid & Ns).
  destruct (Hfind _ Ht) as (tid' & Et & Htid & Nt).
  apply (enumerate_from_lookup _ 0) in Hi. cbn [Nat.add] in Hi.
  apply list_elem_of_split in Hi as (l1 & l2 & Hsplit).
  unfold make_new_edges, enumerate. rewrite Hsplit, fold_left_app. cbn [fold_left].
  set (acc := fold_left _ l1 []).
  assert (Hstep : ∃ e, e ∈ new_edge_step transcript_id user_id
                             (build_name_index new_nodes) acc (i, rel)
            ∧ edge_id e = indexed_id "rel" transcript_id i
            ∧ edge_type e = pr_type rel
            ∧ edge_source e ∈ (node_id <$> new_nodes)
            ∧ edge_target e ∈ (node_id <$> new_nodes)).
  { unfold new_edge_step. rewrite Es, Et. cbn [falsy]. rewrite Ns, Nt. cbn [orb].
    eexists. split; [apply elem_of_app; right; left|]. by split_and!. }
  destruct Hstep as (e & He & Hrest). exists e. split; [|done].
  apply fold_left_inv; [done|]. intros acc' ir _ Hacc. by apply new_edge_step_mono.
Qed.

Lemma named_endpoints_linked_witness :
  [shouted_relationship] !! 0 = Some shouted_relationship
  ∧ lower (pr_source shouted_relationship)
      ∈ (label_key <$> make_new_nodes two_entities None None)
  ∧ lower (pr_target shouted_relationship)
      ∈ (label_key <$> make_new_nodes two_entities None None)
  ∧ ∃ e, e ∈ make_new_edges [shouted_relationship]
               (make_new_nodes two_entities None None) None None
         ∧ edge_id e = indexed_id "rel" None 0.
Proof.
  assert (H1 : [shouted_relationship] !! 0 = Some shouted_relationship) by reflexivity.
  assert (H2 : lower (pr_source shouted_relationship)
                 ∈ (label_key <$> make_new_nodes two_entities None None)).
  { apply (bool_decide_unpack _). vm_compute. exact I. }
  assert (H3 : lower (pr_target shouted_relationship)
                 ∈ (label_key <$> make_new_nodes two_entities None None)).
  { apply (bool_decide_unpack _). vm_compute. exact I. }
  destruct (named_endpoints_linked two_entities [shouted_relationship] None None 0
              shouted_relationship H1 H2 H3) as (e & He & Hid & _).
  exact (conj H1 (conj H2 (conj H3 (ex_intro _ e (conj He Hid))))).
Defined.

End StoreMore.
